(** * Tello drone ATC server: mission controller and landing alignment

    A shallow embedding of [app/core/drone.py] (class [DroneController]) and
    [app/services/aruco.py] (class [ArucoDetector]), with the settings of
    [app/config.py] and the mission status values of [app/api/models.py].

    Python [float] values are binary64 numbers and are modelled by Rocq's
    primitive floats, Python [int] by [Z], [str] by [string].  The drone link
    ([EnhancedTello]) and the marker detector ([cv2.aruco]) are collaborators
    whose code is outside the repository: the link is a script of answers
    (battery level, video frames, acknowledgements), and a frame carries what
    the detector reports on it.  [asyncio.sleep] is the one of CPython 3.11:
    it returns for a finite delay and never for an infinite one. *)

From Stdlib Require Import ZArith List String Floats Lia Bool DecimalString.
From stdpp Require Import gmap strings.
Import ListNotations.

Set Warnings "-inexact-float,-register-all".
Local Open Scope string_scope.
Local Open Scope list_scope.
Local Open Scope Z_scope.

(** ** Python values *)

Module Py.

(** A JSON number is an [int] or a [float]. *)
Inductive number :=
| PyInt (z : Z)
| PyFloat (f : float).

Inductive exn_class :=
| DroneOperationError
| KeyError
| IndexError
| TypeError
| ValueError
| OverflowError.

(** An exception: its class, its argument, and the exception that was being
    handled when it was raised ([__context__]). *)
Inductive exn :=
| Exception (cls : exn_class) (arg : string) (context : option exn).

Definition cls_of (e : exn) : exn_class := let 'Exception c _ _ := e in c.
Definition context_of (e : exn) : option exn := let 'Exception _ _ c := e in c.

(** [str(e)]: the argument, and its [repr] for a [KeyError]. *)
Definition str_exn (e : exn) : string :=
  match e with
  | Exception KeyError k _ => "'" +:+ k +:+ "'"
  | Exception _ msg _ => msg
  end.

(** [str(z)] for an [int]. *)
Definition str_int (z : Z) : string := NilZero.string_of_int (Z.to_int z).

(** [float(z)]: the nearest binary64 value, ties to even. *)
Definition float_of_int (z : Z) : float :=
  SF2Prim (binary_normalize prec emax z 0 false).

(** [int(f)] for a [float]: truncation towards zero; NaN and the infinities
    raise. *)
Definition int_of_float (f : float) : exn + Z :=
  match Prim2SF f with
  | S754_zero _ => inr 0
  | S754_finite s m e =>
      let v := if 0 <=? e then Z.pos m * 2 ^ e else Z.pos m / 2 ^ (- e) in
      inr (if s then - v else v)
  | S754_infinity _ =>
      inl (Exception OverflowError "cannot convert float infinity to integer" None)
  | S754_nan =>
      inl (Exception ValueError "cannot convert float NaN to integer" None)
  end.

(** [n * 100] *)
Definition times_100 (n : number) : number :=
  match n with
  | PyInt z => PyInt (z * 100)
  | PyFloat f => PyFloat (f * 100)%float
  end.

(** [int(n)] *)
Definition int (n : number) : exn + Z :=
  match n with
  | PyInt z => inr z
  | PyFloat f => int_of_float f
  end.

(** A float is a finite number: neither NaN nor an infinity. *)
Definition is_finite (f : float) : bool :=
  match Prim2SF f with
  | S754_zero _ | S754_finite _ _ _ => true
  | S754_infinity _ | S754_nan => false
  end.

(** [x + z] for a float [x] and an [int] [z], as far as it raises: the
    [int] is converted to a float first, and one beyond the largest float
    raises. *)
Definition float_of_int_checked (z : Z) : exn + float :=
  if is_finite (float_of_int z) then inr (float_of_int z)
  else inl (Exception OverflowError "int too large to convert to float" None).

(** What [tolist()] returns on an array of floats: a number for an array
    without dimensions, and a list of such values, one per entry of the first
    dimension, otherwise. *)
Inductive object :=
| Num (f : float)
| List (items : list object).

(** [o[i]] *)
Definition subscript (o : object) (i : nat) : exn + object :=
  match o with
  | List items =>
      match nth_error items i with
      | Some x => inr x
      | None => inl (Exception IndexError "list index out of range" None)
      end
  | Num _ =>
      inl (Exception TypeError "'float' object is not subscriptable" None)
  end.

(** [abs(o) > bound] *)
Definition abs_gt (o : object) (bound : float) : exn + bool :=
  match o with
  | Num f => inr (bound <? abs f)%float
  | List _ =>
      inl (Exception TypeError "bad operand type for abs(): 'list'" None)
  end.

(** [o > 0] *)
Definition gt_0 (o : object) : exn + bool :=
  match o with
  | Num f => inr (0 <? f)%float
  | List _ =>
      inl (Exception TypeError
             "'>' not supported between instances of 'list' and 'int'" None)
  end.

End Py.
Import Py.

(** ** [app/config.py] *)

Module settings.

Definition HOME_MARKER_ID : Z := 1.
Definition TAKEOFF_HEIGHT : float := 1.0%float.
Definition FRAME_WIDTH : Z := 960.
Definition FRAME_HEIGHT : Z := 720.

End settings.

(** ** [app/api/models.py] *)

Inductive MissionStatus := PENDING | IN_PROGRESS | COMPLETED | FAILED.

Definition MissionStatus_value (s : MissionStatus) : string :=
  match s with
  | PENDING => "pending"
  | IN_PROGRESS => "in_progress"
  | COMPLETED => "completed"
  | FAILED => "failed"
  end.

(** ** [app/services/aruco.py] *)

Module aruco.

Definition vec3 : Type := float * float * float.

(** One detected marker, as the vision library reports it: the mean of its
    corners ([marker_corners[0].mean(axis=0)]), its contour area
    ([cv2.contourArea]) and the rotation and translation vectors of its pose
    ([estimatePoseSingleMarkers]). *)
Record Marker := {
  center : float * float;
  contourArea : float;
  rvec : vec3;
  tvec : vec3
}.

(** A video frame: [shape] is (rows, columns); [detected] lists what
    [detect_markers] returns on it, the ids zipped with the corners. *)
Record ndarray := {
  shape : Z * Z;
  detected : list (Z * Marker)
}.

(** An array of shape (n, 1, 3): for each of [n] markers, one row of three
    numbers. *)
Definition poses : Type := list (list vec3).

(** [a[0]] for such an array: an array of shape (1, 3). *)
Definition first (a : poses) : list vec3 := hd [] a.

(** [a.tolist()] for an array of shape (3,) and for one of shape (m, 3). *)
Definition tolist_vec (v : vec3) : object :=
  let '(x, y, z) := v in List [Num x; Num y; Num z].

Definition tolist (a : list vec3) : object := List (map tolist_vec a).

(** The dictionary [alignment_data]. *)
Record alignment_data := {
  distance_from_center : float;
  marker_size : float;
  translation : object;
  rotation : object;
  is_aligned : bool
}.

Definition detect_markers (frame : ndarray) : list Z * list Marker :=
  (map fst (detected frame), map snd (detected frame)).

(** [estimate_marker_pose] on [corners[marker_idx]], the corners of one
    marker (an array of shape (1, 4, 2)): [estimatePoseSingleMarkers]
    returns the rotation and the translation vectors as arrays of shape
    (1, 1, 3). *)
Definition estimate_marker_pose (corners : Marker) : poses * poses :=
  ([[rvec corners]], [[tvec corners]]).

(** [ids.index(x)] followed by [corners[marker_idx]]: the corners at the
    first position where [ids] holds [x]. *)
Fixpoint at_index_of (x : Z) (ids : list Z) (corners : list Marker)
  : option Marker :=
  match ids, corners with
  | i :: ids', c :: corners' =>
      if i =? x then Some c else at_index_of x ids' corners'
  | _, _ => None
  end.

(** [x in ids] *)
Definition contains (x : Z) (ids : list Z) : bool :=
  existsb (Z.eqb x) ids.

(** [np.linalg.norm] of a vector of two components. *)
Definition norm (v : float * float) : float :=
  PrimFloat.sqrt (fst v * fst v + snd v * snd v)%float.

Definition size_threshold (frame : ndarray) : float :=
  (float_of_int (fst (shape frame) * snd (shape frame)) * 0.1)%float.

Definition center_threshold : float := 50%float.

Definition frame_center (frame : ndarray) : float * float :=
  ((float_of_int (snd (shape frame)) / 2)%float,
   (float_of_int (fst (shape frame)) / 2)%float).

Definition get_landing_alignment (frame : ndarray)
  : bool * option alignment_data :=
  let '(ids, corners) := detect_markers frame in
  if negb (contains settings.HOME_MARKER_ID ids) then (false, None)
  else
    match at_index_of settings.HOME_MARKER_ID ids corners with
    | None => (false, None)
    | Some marker_corners =>
        let '(rvec, tvec) := estimate_marker_pose marker_corners in
        let marker_center := center marker_corners in
        let fc := frame_center frame in
        let distance :=
          norm ((fst marker_center - fst fc)%float,
                (snd marker_center - snd fc)%float) in
        let size := contourArea marker_corners in
        let aligned :=
          (distance <? center_threshold)%float
          && (size_threshold frame <? size)%float in
        (aligned,
         Some {| distance_from_center := distance;
                 marker_size := size;
                 translation := tolist (first tvec);
                 rotation := tolist (first rvec);
                 is_aligned := aligned |})
    end.

End aruco.
Import aruco.

(** ** The location table ([config/locations.json]) *)

(** A movement command [{"direction": .., "distance": .., "delay": ..}];
    the key ["delay"] is optional. *)
Record MovementCommand := {
  direction : string;
  distance : number;
  delay : option number
}.

(** A capture point; both keys, ["position"] and ["frames"], are optional. *)
Record CapturePoint := {
  position : option MovementCommand;
  frames : option Z
}.

(** One entry of the table, a dictionary.  Of the three keys that the
    controller reads, one that is absent is [None]; [other_keys] are the keys
    of the entry that the controller never reads. *)
Record LocationData := {
  path : option (list MovementCommand);
  capture_points : option (list CapturePoint);
  return_path : option (list MovementCommand);
  other_keys : list string
}.

(** [not location_data] for an entry: the dictionary has no key at all. *)
Definition is_empty (d : LocationData) : bool :=
  match path d, capture_points d, return_path d, other_keys d with
  | None, None, None, [] => true
  | _, _, _, _ => false
  end.

(** ** The drone link *)

(** What the controller does to the outside, in order. *)
Inductive event :=
| GetBattery
| GetFrame
| Send (command : string)
| Sleep (seconds : number).

(** The commands sent so far, oldest first. *)
Fixpoint sent (log : list event) : list string :=
  match log with
  | [] => []
  | Send c :: log' => c :: sent log'
  | _ :: log' => sent log'
  end.

(** How many frames were asked for so far. *)
Fixpoint frames_read (log : list event) : nat :=
  match log with
  | [] => O
  | GetFrame :: log' => S (frames_read log')
  | _ :: log' => frames_read log'
  end.

(** The link's answers: the battery level, the frame that the [k]-th call of
    [get_frame] returns, and the acknowledgement of a command given the
    commands sent before it. *)
Record EnhancedTello := {
  battery : Z;
  video : nat -> option ndarray;
  acks : list string -> string -> bool
}.

(** ** [app/core/drone.py] *)

(** A value held by the dictionary [current_mission]. *)
Inductive value :=
| Str (s : string)
| Float (f : float).

(** The dictionary [current_mission], from its keys to their values. *)
Abbreviation Mission := (gmap string value).

Record DroneController := {
  drone : EnhancedTello;
  log : list event;
  mission_in_progress : bool;
  current_mission : option Mission;
  image_buffer : list ndarray
}.

Definition set_log (l : list event) (self : DroneController) :=
  {| drone := drone self; log := l;
     mission_in_progress := mission_in_progress self;
     current_mission := current_mission self;
     image_buffer := image_buffer self |}.

Definition set_mission_in_progress (b : bool) (self : DroneController) :=
  {| drone := drone self; log := log self;
     mission_in_progress := b;
     current_mission := current_mission self;
     image_buffer := image_buffer self |}.

Definition set_current_mission (m : option Mission) (self : DroneController) :=
  {| drone := drone self; log := log self;
     mission_in_progress := mission_in_progress self;
     current_mission := m;
     image_buffer := image_buffer self |}.

Definition set_image_buffer (b : list ndarray) (self : DroneController) :=
  {| drone := drone self; log := log self;
     mission_in_progress := mission_in_progress self;
     current_mission := current_mission self;
     image_buffer := b |}.

(** How a method of the controller ends: it returns, it raises, or it stays
    suspended for ever at an [await] that never completes. *)
Inductive result (A : Type) :=
| Ok (a : A)
| Raise (e : exn)
| Pending.
Arguments Ok {A} a.
Arguments Raise {A} e.
Arguments Pending {A}.

Definition M (A : Type) : Type := DroneController -> result A * DroneController.

Definition ret {A} (a : A) : M A := fun self => (Ok a, self).

Definition raise {A} (e : exn) : M A := fun self => (Raise e, self).

Definition bind {A B} (c : M A) (k : A -> M B) : M B :=
  fun self =>
    match c self with
    | (Ok a, self') => k a self'
    | (Raise e, self') => (Raise e, self')
    | (Pending, self') => (Pending, self')
    end.

Notation "x <- c ;; k" := (bind c (fun x => k))
  (at level 100, c at next level, right associativity).
Notation "c ;;; k" := (bind c (fun _ => k))
  (at level 100, right associativity).

Definition modify (f : DroneController -> DroneController) : M unit :=
  fun self => (Ok tt, f self).

Definition emit (e : event) : M unit :=
  modify (fun self => set_log (log self ++ [e]) self).

Definition lift {A} (r : exn + A) : M A :=
  match r with
  | inl e => raise e
  | inr a => ret a
  end.

Definition failure {A} (msg : string) : M A :=
  raise (Exception DroneOperationError msg None).

(** [self.drone.get_battery()] *)
Definition get_battery : M Z :=
  fun self => (Ok (battery (drone self)), set_log (log self ++ [GetBattery]) self).

(** [self.drone.get_frame()] *)
Definition get_frame : M (option ndarray) :=
  fun self =>
    (Ok (video (drone self) (frames_read (log self))),
     set_log (log self ++ [GetFrame]) self).

(** [self.drone._send_command(command)] *)
Definition _send_command (command : string) : M bool :=
  fun self =>
    (Ok (acks (drone self) (sent (log self)) command),
     set_log (log self ++ [Send command]) self).

(** How [asyncio.sleep(delay)] ends.  A delay that is not above zero
    returns at once.  Another delay is added to the time of the event loop, a
    float, which raises for an [int] beyond the largest float; the timer
    then fires when that time has come, which for an infinite delay, and for
    NaN, is never.  (From CPython 3.13 on, a NaN delay raises [ValueError]
    instead.) *)
Definition asyncio_sleep (delay : number) : result unit :=
  match delay with
  | PyInt z =>
      if z <=? 0 then Ok tt
      else
        match float_of_int_checked z with
        | inl e => Raise e
        | inr _ => Ok tt
        end
  | PyFloat f =>
      if (f <=? 0)%float then Ok tt
      else if is_finite f then Ok tt
      else Pending
  end.

(** [await asyncio.sleep(seconds)]: the sleep is logged when it starts. *)
Definition sleep (seconds : number) : M unit :=
  fun self =>
    match asyncio_sleep seconds with
    | Raise e => (Raise e, self)
    | r => (r, set_log (log self ++ [Sleep seconds]) self)
    end.

(** [d[key]] where [o] is what the dictionary holds at [key]. *)
Definition getitem {A} (key : string) (o : option A) : M A :=
  match o with
  | Some a => ret a
  | None => raise (Exception KeyError key None)
  end.

(** [try: body / except Exception as e: handler e] *)
Definition try_except {A} (body : M A) (handler : exn -> M A) : M A :=
  fun self =>
    match body self with
    | (Ok a, self') => (Ok a, self')
    | (Raise e, self') => handler e self'
    | (Pending, self') => (Pending, self')
    end.

(** [try: body / finally: final], for a [final] that does not raise; a
    body that stays suspended never reaches [final]. *)
Definition try_finally {A} (body : M A)
    (final : DroneController -> DroneController) : M A :=
  fun self =>
    match body self with
    | (Pending, self') => (Pending, self')
    | (r, self') => (r, final self')
    end.

(** [self.current_mission[key] = v] *)
Definition setitem_current_mission (key : string) (v : value) : M unit :=
  fun self =>
    match current_mission self with
    | Some m => (Ok tt, set_current_mission (Some (<[key := v]> m)) self)
    | None =>
        (Raise (Exception TypeError
                  "'NoneType' object does not support item assignment" None),
         self)
    end.

(** The dictionary that [execute_mission] creates when it accepts a call. *)
Definition new_mission (location_id : string) (now : float) : Mission :=
  <["status" := Str (MissionStatus_value IN_PROGRESS)]>
    (<["start_time" := Float now]>
       (<["location_id" := Str location_id]> ∅)).

Section Controller.

(** [settings.locations], the table read from [config/locations.json]. *)
Variable locations : gmap string LocationData.

(** What [time.time()] returns when the mission starts. *)
Variable now : float.

Definition _takeoff_sequence : M unit :=
  battery <- get_battery ;;
  if battery <? 20 then
    failure ("Battery too low for mission: " +:+ str_int battery +:+ "%")
  else
    frame <- get_frame ;;
    match frame with
    | None => failure "No video frame available"
    | Some frame =>
        let '(_, alignment) := get_landing_alignment frame in
        match alignment with
        | None => failure "Cannot detect home marker before takeoff"
        | Some _ =>
            ok <- _send_command "takeoff" ;;
            if negb ok then failure "Takeoff command failed"
            else
              height <- lift (int (times_100 (PyFloat settings.TAKEOFF_HEIGHT))) ;;
              ok <- _send_command ("up " +:+ str_int height) ;;
              if negb ok then failure "Failed to reach takeoff height"
              else ret tt
        end
    end.

(** The text of a movement command:
    [f"{cmd['direction']} {int(cmd['distance'] * 100)}"]. *)
Definition command_of (cmd : MovementCommand) : exn + string :=
  match int (times_100 (distance cmd)) with
  | inl e => inl e
  | inr centimeters => inr (direction cmd +:+ " " +:+ str_int centimeters)
  end.

Fixpoint _execute_path (path_commands : list MovementCommand) : M unit :=
  match path_commands with
  | [] => ret tt
  | cmd :: rest =>
      command <- lift (command_of cmd) ;;
      ok <- _send_command command ;;
      if negb ok then failure ("Path command failed: " +:+ command)
      else
        sleep (default (PyInt 2) (delay cmd)) ;;;
        _execute_path rest
  end.

(** [for _ in range(frames_to_capture)] of [_capture_location] *)
Fixpoint capture_frames (frames_to_capture : nat) : M unit :=
  match frames_to_capture with
  | O => ret tt
  | S n =>
      frame <- get_frame ;;
      match frame with
      | Some f =>
          modify (fun self => set_image_buffer (image_buffer self ++ [f]) self)
      | None => ret tt
      end ;;;
      sleep (PyFloat 0.5) ;;;
      capture_frames n
  end.

(** [if 'position' in point: await self._execute_path([point['position']])] *)
Definition reposition (point : CapturePoint) : M unit :=
  match position point with
  | Some p => _execute_path [p]
  | None => ret tt
  end.

(** [for point in capture_points] of [_capture_location] *)
Fixpoint capture_each (capture_points : list CapturePoint) : M unit :=
  match capture_points with
  | [] => ret tt
  | point :: rest =>
      reposition point ;;;
      capture_frames (Z.to_nat (default 1 (frames point))) ;;;
      capture_each rest
  end.

Definition _capture_location (capture_points : list CapturePoint) : M unit :=
  modify (set_image_buffer []) ;;;
  capture_each capture_points.

(** The adjustments of one round of [_return_home], for a frame that was
    evaluated as [(aligned, alignment)]. *)
Definition adjust (aligned : bool) (alignment : option alignment_data)
  : M unit :=
  if negb aligned then
    match alignment with
    | Some alignment =>
        if (50 <? distance_from_center alignment)%float then
          dx <- lift (subscript (translation alignment) 0) ;;
          dy <- lift (subscript (translation alignment) 1) ;;
          beyond <- lift (abs_gt dx 0.2) ;;
          (if beyond then
             positive <- lift (gt_0 dx) ;;
             _send_command ((if positive then "right" else "left") +:+ " 20") ;;;
             ret tt
           else ret tt) ;;;
          beyond <- lift (abs_gt dy 0.2) ;;
          (if beyond then
             positive <- lift (gt_0 dy) ;;
             _send_command ((if positive then "forward" else "back") +:+ " 20") ;;;
             ret tt
           else ret tt)
        else ret tt
    | None => ret tt
    end
  else ret tt.

(** The body of the [while] loop of [_return_home]; it returns the new
    value of [aligned]. *)
Definition align_round : M bool :=
  frame <- get_frame ;;
  match frame with
  | None => failure "No video frame available for landing"
  | Some frame =>
      let '(aligned, alignment) := get_landing_alignment frame in
      adjust aligned alignment ;;;
      sleep (PyInt 1) ;;;
      ret aligned
  end.

(** [while not aligned and attempts < 3]; it returns the last value of
    [aligned].  The loop leaves after at most [3 - attempts] rounds, so
    [fuel] is never used up when it starts at 3. *)
Fixpoint align_loop (fuel : nat) (aligned : bool) (attempts : Z) : M bool :=
  match fuel with
  | O => ret aligned
  | S fuel' =>
      if negb aligned && (attempts <? 3) then
        aligned' <- align_round ;;
        align_loop fuel' aligned' (attempts + 1)
      else ret aligned
  end.

(** The second half of [_return_home]: align with the landing marker, then
    land. *)
Definition align_and_land : M unit :=
  aligned <- align_loop 3 false 0 ;;
  if negb aligned then failure "Failed to align with landing marker"
  else
    ok <- _send_command "land" ;;
    if negb ok then failure "Landing command failed"
    else ret tt.

Definition _return_home : M unit :=
  home <- getitem "home" (locations !! "home") ;;
  return_path <- getitem "return_path" (return_path home) ;;
  _execute_path return_path ;;;
  align_and_land.

(** The statements under [try:] in [execute_mission]. *)
Definition mission_steps (location_data : LocationData)
  : M (option Mission) :=
  _takeoff_sequence ;;;
  path_commands <- getitem "path" (path location_data) ;;
  _execute_path path_commands ;;;
  _capture_location (default [] (capture_points location_data)) ;;;
  _return_home ;;;
  setitem_current_mission "status" (Str (MissionStatus_value COMPLETED)) ;;;
  fun self => (Ok (current_mission self), self).

(** The [except Exception as e:] block of [execute_mission]. *)
Definition mission_failed (e : exn) : M (option Mission) :=
  setitem_current_mission "status" (Str (MissionStatus_value FAILED)) ;;;
  setitem_current_mission "error" (Str (str_exn e)) ;;;
  raise (Exception DroneOperationError
           ("Mission failed: " +:+ str_exn e) (Some e)).

Definition execute_mission (location_id : string) : M (option Mission) :=
  fun self =>
    if mission_in_progress self then
      failure "Another mission is already in progress" self
    else
      match locations !! location_id with
      | None => failure ("Unknown location: " +:+ location_id) self
      | Some location_data =>
          if is_empty location_data then
            failure ("Unknown location: " +:+ location_id) self
          else
            try_finally
              (try_except (mission_steps location_data) mission_failed)
              (set_mission_in_progress false)
              (set_current_mission (Some (new_mission location_id now))
                 (set_mission_in_progress true self))
      end.

End Controller.

(** ** The errors of a mission

    The failures that the controller raises itself are
    [DroneOperationError]s; the kinds of failure differ by their message. *)

Definition Conflict : exn :=
  Exception DroneOperationError "Another mission is already in progress" None.

Definition NotFound (location_id : string) : exn :=
  Exception DroneOperationError ("Unknown location: " +:+ location_id) None.

Definition InsufficientBattery (level : Z) : exn :=
  Exception DroneOperationError
    ("Battery too low for mission: " +:+ str_int level +:+ "%") None.

Definition PreflightVideoUnavailable : exn :=
  Exception DroneOperationError "No video frame available" None.

Definition PreflightVisionFailure : exn :=
  Exception DroneOperationError "Cannot detect home marker before takeoff" None.

Definition TakeoffRejected : exn :=
  Exception DroneOperationError "Takeoff command failed" None.

Definition CommandRejected (command : string) : exn :=
  Exception DroneOperationError ("Path command failed: " +:+ command) None.

Definition LandingVideoUnavailable : exn :=
  Exception DroneOperationError "No video frame available for landing" None.

Definition AlignmentTimeout : exn :=
  Exception DroneOperationError "Failed to align with landing marker" None.

Definition LandingCommandFailed : exn :=
  Exception DroneOperationError "Landing command failed" None.

(** The error of [alignment['translation'][1]] on a list of one row. *)
Definition IndexOutOfRange : exn :=
  Exception IndexError "list index out of range" None.

(** The error that [execute_mission] raises for a failure [cause] of one of
    its steps. *)
Definition MissionExecutionError (cause : exn) : exn :=
  Exception DroneOperationError ("Mission failed: " +:+ str_exn cause) (Some cause).

(** ** Vocabulary of the statements *)

(** The home marker is among the markers detected on a frame. *)
Definition home_marker_detected (frame : ndarray) : Prop :=
  In settings.HOME_MARKER_ID (fst (detect_markers frame)).

(** A tenth of the area of a frame, as [get_landing_alignment] computes it. *)
Definition tenth_of_frame_area (frame : ndarray) : float :=
  (float_of_int (fst (shape frame) * snd (shape frame)) * 0.1)%float.

(** The offset of a marker's centroid from the centre of the frame. *)
Definition centroid_offset (m : Marker) (frame : ndarray) : float * float :=
  ((fst (center m) - float_of_int (snd (shape frame)) / 2)%float,
   (snd (center m) - float_of_int (fst (shape frame)) / 2)%float).

(** The first marker of a frame that carries the home identifier. *)
Definition home_marker (frame : ndarray) : option Marker :=
  snd <$> find (fun d => fst d =? settings.HOME_MARKER_ID) (detected frame).

(** The texts of the commands of a path, for those that have one. *)
Definition path_text (commands : list MovementCommand) : list string :=
  flat_map (fun cmd => match command_of cmd with
                       | inr c => [c]
                       | inl _ => []
                       end) commands.

(** The repositioning commands of a list of capture points. *)
Definition positions (points : list CapturePoint) : list MovementCommand :=
  flat_map (fun point => match position point with
                         | Some p => [p]
                         | None => []
                         end) points.

(** How many frames a capture phase asks for. *)
Definition frames_asked (points : list CapturePoint) : nat :=
  fold_right (fun point n => (Z.to_nat (default 1%Z (frames point)) + n)%nat)
    O points.

(** The frames that the link delivers at the calls [k], ..., [k + n - 1] of
    [get_frame], without the calls that deliver none. *)
Definition delivered (link : EnhancedTello) (k n : nat) : list ndarray :=
  flat_map (fun i => match video link i with
                     | Some f => [f]
                     | None => []
                     end) (seq k n).

(** The events that a method adds to the log of [self]. *)
Definition emitted {A} (c : M A) (self : DroneController) : list event :=
  drop (length (log self)) (log (snd (c self))).

(** A method leaves the link, the in-progress flag and the mission record as
    they are, and only adds to the log. *)
Definition steady {A} (c : M A) : Prop :=
  forall self,
    drone (snd (c self)) = drone self
    /\ mission_in_progress (snd (c self)) = mission_in_progress self
    /\ current_mission (snd (c self)) = current_mission self
    /\ exists evs, log (snd (c self)) = log self ++ evs.

(** The controller once [execute_mission] has accepted a call: the flag is
    set and the mission record is created. *)
Definition accepted (location_id : string) (now : float)
    (self : DroneController) : DroneController :=
  set_current_mission (Some (new_mission location_id now))
    (set_mission_in_progress true self).

(** The four steps of a mission, without the bookkeeping that follows
    them. *)
Definition flight (locations : gmap string LocationData)
    (location_data : LocationData) : M unit :=
  _takeoff_sequence ;;;
  path_commands <- getitem "path" (path location_data) ;;
  _execute_path path_commands ;;;
  _capture_location (default [] (capture_points location_data)) ;;;
  _return_home locations.

(** The mission record holds a completion time. *)
Definition records_completion_time (m : Mission) : Prop :=
  is_Some (m !! "completion_time").

(** The first component of a vector, [v[0]]. *)
Definition x_of (v : vec3) : float := fst (fst v).

(** The frame gives a sample that is not aligned and lies more than 50 px
    off centre: the case in which [_return_home] reads the translation. *)
Definition off_centre (f : ndarray) : bool :=
  match get_landing_alignment f with
  | (false, Some a) => (50 <? distance_from_center a)%float
  | _ => false
  end.

(** The [i]-th frame of the video is there and is evaluated as aligned, or
    as not aligned. *)
Definition aligned_at (link : EnhancedTello) (i : nat) : Prop :=
  exists f, video link i = Some f /\ fst (get_landing_alignment f) = true.

Definition misaligned_at (link : EnhancedTello) (i : nat) : Prop :=
  exists f, video link i = Some f /\ fst (get_landing_alignment f) = false.

(** The [i]-th frame of the video is there, is evaluated as not aligned, and
    is not off centre in the sense above: the home marker is not seen on it,
    or it is seen not more than 50 px from the centre. *)
Definition waiting_at (link : EnhancedTello) (i : nat) : Prop :=
  exists f, video link i = Some f
    /\ fst (get_landing_alignment f) = false /\ off_centre f = false.

(** The [i]-th frame of the video is there and is off centre. *)
Definition off_centre_at (link : EnhancedTello) (i : nat) : Prop :=
  exists f, video link i = Some f /\ off_centre f = true.

(** What a round of the alignment that completes adds to the log. *)
Definition round_events : list event := [GetFrame; Sleep (PyInt 1)].

(** The events of [i] rounds that complete. *)
Definition rounds_events (i : nat) : list event :=
  concat (repeat round_events i).

(** At most [n] rounds of the alignment on the video from its frame [k] on:
    the outcome and the events. *)
Fixpoint align_rounds (link : EnhancedTello) (k n : nat)
  : result bool * list event :=
  match n with
  | O => (Ok false, [])
  | S n' =>
      match video link k with
      | None => (Raise LandingVideoUnavailable, [GetFrame])
      | Some f =>
          if fst (get_landing_alignment f) then (Ok true, round_events)
          else if off_centre f then (Raise IndexOutOfRange, [GetFrame])
          else
            (fst (align_rounds link (S k) n'),
             round_events ++ snd (align_rounds link (S k) n'))
      end
  end.

(** ** [get_status] and the values of [MissionStatus] *)

(** The dictionary that [get_status] returns. *)
Record Status := {
  status_battery : Z;
  status_mission_in_progress : bool;
  status_current_mission : option Mission
}.

(** [get_status] of [app/core/drone.py]. *)
Definition get_status : M Status :=
  battery <- get_battery ;;
  fun self =>
    (Ok {| status_battery := battery;
           status_mission_in_progress := mission_in_progress self;
           status_current_mission := current_mission self |},
     self).

(** [MissionStatus(v)]: the member of the enumeration whose value is [v];
    there is none ([ValueError]) for another string. *)
Definition MissionStatus_of_value (v : string) : option MissionStatus :=
  if String.eqb v "pending" then Some PENDING
  else if String.eqb v "in_progress" then Some IN_PROGRESS
  else if String.eqb v "completed" then Some COMPLETED
  else if String.eqb v "failed" then Some FAILED
  else None.

(** ** More vocabulary *)

(** What a path that completes adds to the log: each command, then its
    settle delay. *)
Definition path_events (commands : list MovementCommand) : list event :=
  flat_map (fun cmd => match command_of cmd with
                       | inr c => [Send c; Sleep (default (PyInt 2) (delay cmd))]
                       | inl _ => []
                       end) commands.

(** What a capture of [n] frames adds to the log. *)
Definition sampling_events (n : nat) : list event :=
  concat (repeat [GetFrame; Sleep (PyFloat 0.5)] n).

(** The steps of a mission up to the outbound path. *)
Definition outbound (location_data : LocationData) : M unit :=
  _takeoff_sequence ;;;
  path_commands <- getitem "path" (path location_data) ;;
  _execute_path path_commands.

(** The steps of a mission up to the return path. *)
Definition approach (locations : gmap string LocationData)
    (location_data : LocationData) : M unit :=
  _takeoff_sequence ;;;
  path_commands <- getitem "path" (path location_data) ;;
  _execute_path path_commands ;;;
  _capture_location (default [] (capture_points location_data)) ;;;
  home <- getitem "home" (locations !! "home") ;;
  return_path <- getitem "return_path" (return_path home) ;;
  _execute_path return_path.

(** A method sends only commands that satisfy [P]. *)
Definition sends (P : string -> Prop) {A} (c : M A) : Prop :=
  forall self,
    exists cs,
      sent (log (snd (c self))) = sent (log self) ++ cs /\ Forall P cs.

Definition not_land (command : string) : Prop := command <> "land".

(** The entry [d] with another return path, or with none. *)
Definition with_return_path (back : option (list MovementCommand))
    (d : LocationData) : LocationData :=
  {| path := path d; capture_points := capture_points d;
     return_path := back; other_keys := other_keys d |}.

(** The delay of a movement command, [cmd.get('delay', 2)]. *)
Definition delay_of (cmd : MovementCommand) : number :=
  default (PyInt 2) (delay cmd).

(** A float is not a number. *)
Definition is_NaN (x : float) : Prop := Prim2SF x = S754_nan.

(** A float is infinite. *)
Definition is_infinite (x : float) : Prop :=
  exists s, Prim2SF x = S754_infinity s.

(** ** Scenarios *)

Module Scenario.

(** A frame of the configured size that shows the home marker. *)
Definition frame_with (cx cy area : float) (t : vec3) : ndarray :=
  {| shape := (settings.FRAME_HEIGHT, settings.FRAME_WIDTH);
     detected := [(7, {| center := (0, 0)%float; contourArea := 1%float;
                         rvec := (0, 0, 0)%float; tvec := (0, 0, 0)%float |});
                  (settings.HOME_MARKER_ID,
                   {| center := (cx, cy); contourArea := area;
                      rvec := (0, 0, 0)%float; tvec := t |})] |}.

(** 40 px from the centre, 15% of the frame. *)
Definition frame_aligned : ndarray :=
  frame_with 504 392 103680 (0, 0, 0)%float.

(** 60 px from the centre, 20% of the frame, 0.3 to the right. *)
Definition frame_off_centre : ndarray :=
  frame_with 516 408 138240 (0.3, 0, 0)%float.

(** 40 px from the centre but far away (a small marker), 0.3 to the right. *)
Definition frame_far_away : ndarray :=
  frame_with 504 392 1000 (0.3, 0, 0)%float.

(** A frame that shows another marker only. *)
Definition frame_without_home : ndarray :=
  {| shape := (settings.FRAME_HEIGHT, settings.FRAME_WIDTH);
     detected := [(7, {| center := (480, 360)%float; contourArea := 90000%float;
                         rvec := (0, 0, 0)%float; tvec := (0, 0, 0)%float |})] |}.

Definition move (d : string) (x : number) : MovementCommand :=
  {| direction := d; distance := x; delay := None |}.

(** A table with the entry ["home"] and a location ["roof"] that has a
    return path of its own. *)
Definition home : LocationData :=
  {| path := None; capture_points := None;
     return_path := Some [move "back" (PyFloat 1.5)]; other_keys := [] |}.

Definition roof : LocationData :=
  {| path := Some [move "forward" (PyInt 2)];
     capture_points :=
       Some [ {| position := None; frames := Some 2 |};
              {| position := None; frames := None |} ];
     return_path := Some [move "left" (PyInt 1)]; other_keys := [] |}.

Definition table : gmap string LocationData :=
  <["home" := home]> (<["roof" := roof]> ∅).

(** A location whose path has a command with an infinite settle delay. *)
Definition yard : LocationData :=
  {| path := Some [ {| direction := "forward"; distance := PyInt 1;
                       delay := Some (PyFloat infinity) |} ];
     capture_points := None; return_path := None; other_keys := [] |}.

(** An entry that holds none of the keys that the controller reads. *)
Definition storage : LocationData :=
  {| path := None; capture_points := None; return_path := None;
     other_keys := ["note"] |}.

(** A link that acknowledges every command. *)
Definition link (level : Z) (v : nat -> option ndarray) : EnhancedTello :=
  {| battery := level; video := v; acks := fun _ _ => true |}.

(** A link that rejects the command [c] and acknowledges every other. *)
Definition link_rejecting (c : string) (level : Z) (v : nat -> option ndarray)
  : EnhancedTello :=
  {| battery := level; video := v;
     acks := fun _ command => negb (String.eqb command c) |}.

(** A controller as [__init__] leaves it. *)
Definition idle (l : EnhancedTello) : DroneController :=
  {| drone := l; log := []; mission_in_progress := false;
     current_mission := None; image_buffer := [] |}.

(** A controller in the middle of a mission. *)
Definition busy (l : EnhancedTello) : DroneController :=
  {| drone := l; log := [GetBattery; GetFrame; Send "takeoff"];
     mission_in_progress := true;
     current_mission := Some (new_mission "roof" 5%float);
     image_buffer := [] |}.

(** A video that shows the home marker aligned during the preflight check
    and the capture at the roof, and then the frame [f]. *)
Definition video_then (f : ndarray) (i : nat) : option ndarray :=
  if (i <? 4)%nat then Some frame_aligned else Some f.

(** A link whose video stops after the frames of the preflight check and
    of the capture at the roof. *)
Definition link_losing_video : EnhancedTello :=
  link 80 (fun i => if (i <? 4)%nat then Some frame_aligned else None).

End Scenario.

(** * Properties *)

(** ** The alignment evaluation *)

Lemma contains_In (x : Z) (ids : list Z) : contains x ids = true <-> In x ids.
Proof.
  unfold contains. rewrite existsb_exists. split.
  - intros (y & Hy & E). apply Z.eqb_eq in E. now subst.
  - intros H. exists x. split; [assumption | apply Z.eqb_refl].
Qed.

Lemma at_index_of_zipped (x : Z) (l : list (Z * Marker)) :
  at_index_of x (map fst l) (map snd l)
  = snd <$> find (fun d => fst d =? x) l.
Proof.
  induction l as [|[i m] l IH]; simpl; [reflexivity|].
  destruct (i =? x); [reflexivity | exact IH].
Qed.

Lemma find_home_In (x : Z) (l : list (Z * Marker)) :
  In x (map fst l) -> exists d, find (fun d => fst d =? x) l = Some d.
Proof.
  induction l as [|[i m] l IH]; simpl; [tauto|].
  intros [E | H].
  - subst. rewrite Z.eqb_refl. eauto.
  - destruct (i =? x); eauto.
Qed.

(** The evaluation of a frame that shows the home marker [m]. *)
Lemma get_landing_alignment_detected (frame : ndarray) (m : Marker) :
  home_marker_detected frame ->
  home_marker frame = Some m ->
  let d := norm (centroid_offset m frame) in
  let aligned :=
    (d <? 50)%float && (tenth_of_frame_area frame <? contourArea m)%float in
  get_landing_alignment frame
  = (aligned,
     Some {| distance_from_center := d; marker_size := contourArea m;
             translation := List [tolist_vec (tvec m)];
             rotation := List [tolist_vec (rvec m)];
             is_aligned := aligned |}).
Proof.
  intros Hin Hm. unfold get_landing_alignment, detect_markers.
  apply contains_In in Hin. unfold detect_markers in Hin. simpl in Hin.
  rewrite Hin. simpl. rewrite at_index_of_zipped.
  unfold home_marker in Hm. rewrite Hm. reflexivity.
Qed.

Lemma get_landing_alignment_undetected (frame : ndarray) :
  ~ home_marker_detected frame ->
  get_landing_alignment frame = (false, None).
Proof.
  intros Hn. unfold get_landing_alignment, detect_markers.
  destruct (contains settings.HOME_MARKER_ID (map fst (detected frame))) eqn:E.
  - apply contains_In in E. contradiction.
  - reflexivity.
Qed.

(** A sample is returned exactly for the frames that show the home marker. *)
Lemma alignment_sample_iff_detected (frame : ndarray) :
  snd (get_landing_alignment frame) = None <-> ~ home_marker_detected frame.
Proof.
  split.
  - intros H Hin.
    destruct (find_home_In _ _ Hin) as [[i m] Hf].
    rewrite (get_landing_alignment_detected frame m Hin) in H; [discriminate|].
    unfold home_marker. now rewrite Hf.
  - intros H. now rewrite get_landing_alignment_undetected.
Qed.

(** The translation of a sample is a list of one row: it has no second
    entry. *)
Lemma translation_one_row (frame : ndarray) (a : alignment_data) :
  snd (get_landing_alignment frame) = Some a ->
  exists row, translation a = List [row].
Proof.
  intros H.
  destruct (in_dec Z.eq_dec settings.HOME_MARKER_ID
              (fst (detect_markers frame))) as [Hin|Hn].
  - destruct (find_home_In _ _ Hin) as [[i m] Hf].
    rewrite (get_landing_alignment_detected frame m Hin) in H
      by (unfold home_marker; now rewrite Hf).
    injection H as <-. simpl. eauto.
  - rewrite (get_landing_alignment_undetected frame Hn) in H. discriminate.
Qed.

(** C3: for every frame, the evaluation returns (false, none) when the home
    marker is not among the detected markers; otherwise it returns a sample
    whose distance is the pixel distance between the centroid of the marker and
    the centre of the frame and whose size is the area of the marker, and it
    says aligned exactly when that distance is below 50 and that area is
    above a tenth of the area of the frame.  On a frame of the configured
    size, a sample at 40 px with 15% of the frame is aligned, and a sample at
    60 px with 20% of the frame is not. *)
Theorem get_landing_alignment_spec (frame : ndarray) :
  (~ home_marker_detected frame ->
   get_landing_alignment frame = (false, None))
  /\ (home_marker_detected frame ->
      exists m a,
        home_marker frame = Some m
        /\ snd (get_landing_alignment frame) = Some a
        /\ distance_from_center a = norm (centroid_offset m frame)
        /\ marker_size a = contourArea m
        /\ is_aligned a = fst (get_landing_alignment frame)
        /\ (fst (get_landing_alignment frame) = true <->
            (distance_from_center a <? 50)%float = true
            /\ (tenth_of_frame_area frame <? marker_size a)%float = true))
  /\ (forall aligned a,
        shape frame = (settings.FRAME_HEIGHT, settings.FRAME_WIDTH) ->
        get_landing_alignment frame = (aligned, Some a) ->
        (distance_from_center a = 40%float ->
         marker_size a = float_of_int (15 * (720 * 960) / 100) ->
         aligned = true)
        /\ (distance_from_center a = 60%float ->
            marker_size a = float_of_int (20 * (720 * 960) / 100) ->
            aligned = false)).
Proof.
  assert (Hdet : home_marker_detected frame ->
      exists m a,
        home_marker frame = Some m
        /\ get_landing_alignment frame
           = ((distance_from_center a <? 50)%float
              && (tenth_of_frame_area frame <? marker_size a)%float, Some a)
        /\ distance_from_center a = norm (centroid_offset m frame)
        /\ marker_size a = contourArea m
        /\ is_aligned a = fst (get_landing_alignment frame)).
  { intros Hin. destruct (find_home_In _ _ Hin) as [[i m] Hf].
    assert (Hm : home_marker frame = Some m) by (unfold home_marker; now rewrite Hf).
    pose proof (get_landing_alignment_detected frame m Hin Hm) as E.
    simpl in E.
    match type of E with _ = (_, Some ?a) => exists m, a end.
    split; [exact Hm|]. rewrite E. simpl. repeat split; reflexivity. }
  split; [apply get_landing_alignment_undetected|]. split.
  - intros Hin. destruct (Hdet Hin) as (m & a & Hm & E & Hd & Hs & Ha).
    exists m, a. rewrite E in *. simpl in *.
    repeat (split; [first [assumption | reflexivity]|]).
    apply andb_true_iff.
  - intros aligned a Hshape E.
    assert (Hin : home_marker_detected frame).
    { destruct (alignment_sample_iff_detected frame) as [_ H].
      destruct (in_dec Z.eq_dec settings.HOME_MARKER_ID
                  (fst (detect_markers frame))) as [Hin|Hn]; [assumption|].
      apply H in Hn. rewrite E in Hn. discriminate. }
    destruct (Hdet Hin) as (m & a' & _ & E' & _).
    rewrite E in E'. injection E' as Eal Ea. subst a'.
    unfold tenth_of_frame_area in *. rewrite Hshape in *. simpl in *.
    split; intros Hd Hs; rewrite Eal, Hd, Hs; vm_compute; reflexivity.
Qed.

(** ** The log *)

Lemma sent_app (l1 l2 : list event) : sent (l1 ++ l2) = sent l1 ++ sent l2.
Proof.
  induction l1 as [|e l1 IH]; simpl; [reflexivity|].
  destruct e; simpl; rewrite IH; reflexivity.
Qed.

Lemma frames_read_app (l1 l2 : list event) :
  frames_read (l1 ++ l2) = (frames_read l1 + frames_read l2)%nat.
Proof.
  induction l1 as [|e l1 IH]; simpl; [reflexivity|].
  destruct e; simpl; rewrite IH; reflexivity.
Qed.

(** ** What every step leaves alone *)

Lemma steady_ret {A} (a : A) : steady (ret a).
Proof. intros self. simpl. repeat split. exists []. now rewrite app_nil_r. Qed.

Lemma steady_raise {A} (e : exn) : steady (@raise A e).
Proof. intros self. simpl. repeat split. exists []. now rewrite app_nil_r. Qed.

Lemma steady_bind {A B} (c : M A) (k : A -> M B) :
  steady c -> (forall a, steady (k a)) -> steady (bind c k).
Proof.
  intros Hc Hk self. unfold bind.
  destruct (Hc self) as (Hd & Hp & Hm & evs & Hl).
  destruct (c self) as [[a|e|] s1]; simpl in *.
  - destruct (Hk a s1) as (Hd' & Hp' & Hm' & evs' & Hl').
    rewrite Hd', Hp', Hm', Hl', Hd, Hp, Hm, Hl. repeat split.
    exists (evs ++ evs'). now rewrite app_assoc.
  - repeat split; try assumption. now exists evs.
  - repeat split; try assumption. now exists evs.
Qed.

Lemma steady_emit (e : event) : steady (emit e).
Proof. intros self. simpl. repeat split. now exists [e]. Qed.

Lemma steady_get_battery : steady get_battery.
Proof. intros self. simpl. repeat split. now exists [GetBattery]. Qed.

Lemma steady_get_frame : steady get_frame.
Proof. intros self. simpl. repeat split. now exists [GetFrame]. Qed.

Lemma steady_send_command (c : string) : steady (_send_command c).
Proof. intros self. simpl. repeat split. now exists [Send c]. Qed.

Lemma steady_sleep (n : number) : steady (sleep n).
Proof.
  intros self. unfold sleep.
  destruct (asyncio_sleep n); simpl; repeat split;
    solve [now exists [Sleep n] | exists []; now rewrite app_nil_r].
Qed.

Lemma steady_buffer (f : DroneController -> list ndarray) :
  steady (modify (fun self => set_image_buffer (f self) self)).
Proof. intros self. simpl. repeat split. exists []. now rewrite app_nil_r. Qed.

Lemma steady_lift {A} (r : exn + A) : steady (lift r).
Proof. destruct r; [apply steady_raise | apply steady_ret]. Qed.

Lemma steady_getitem {A} (key : string) (o : option A) : steady (getitem key o).
Proof. destruct o; [apply steady_ret | apply steady_raise]. Qed.

Create HintDb steady.
#[local] Hint Resolve steady_ret steady_raise steady_emit steady_get_battery
  steady_get_frame steady_send_command steady_sleep steady_buffer steady_lift
  steady_getitem : steady.

(** One step of a proof that a method is steady: through a bind, a branch,
    or a primitive. *)
Ltac steady_step :=
  match goal with
  | |- steady (bind _ _) => apply steady_bind; [|intros]
  | |- steady (match ?x with _ => _ end) => destruct x
  | |- steady (failure _) => apply steady_raise
  | |- steady (sleep _) => apply steady_sleep
  | |- steady (modify (set_image_buffer _)) =>
      apply (steady_buffer (fun _ => _))
  | |- steady _ => solve [auto with steady]
  end.

Lemma steady_takeoff_sequence : steady _takeoff_sequence.
Proof. unfold _takeoff_sequence. repeat steady_step. Qed.

Lemma steady_execute_path (p : list MovementCommand) : steady (_execute_path p).
Proof.
  induction p as [|cmd p IH]; simpl; [apply steady_ret|].
  repeat steady_step.
Qed.

Lemma steady_capture_frames (n : nat) : steady (capture_frames n).
Proof.
  induction n as [|n IH]; simpl; [apply steady_ret|].
  repeat steady_step.
Qed.

Lemma steady_reposition (pt : CapturePoint) : steady (reposition pt).
Proof.
  unfold reposition. destruct (position pt);
    [apply steady_execute_path | apply steady_ret].
Qed.

Lemma steady_capture_each (pts : list CapturePoint) : steady (capture_each pts).
Proof.
  induction pts as [|pt pts IH]; simpl; [apply steady_ret|].
  repeat steady_step;
    auto using steady_reposition, steady_capture_frames.
Qed.

Lemma steady_capture_location (pts : list CapturePoint) :
  steady (_capture_location pts).
Proof.
  unfold _capture_location. repeat steady_step;
    auto using steady_capture_each.
Qed.

Lemma steady_adjust (b : bool) (al : option alignment_data) : steady (adjust b al).
Proof.
  unfold adjust. destruct b; simpl; [apply steady_ret|].
  destruct al as [a|]; [|apply steady_ret].
  destruct (50 <? distance_from_center a)%float; [|apply steady_ret].
  repeat steady_step.
Qed.

Lemma steady_align_round : steady align_round.
Proof.
  unfold align_round. repeat steady_step; auto using steady_adjust.
Qed.

Lemma steady_align_loop (fuel : nat) (b : bool) (n : Z) :
  steady (align_loop fuel b n).
Proof.
  revert b n. induction fuel as [|fuel IH]; intros b n; simpl;
    [apply steady_ret|].
  repeat steady_step; auto using steady_align_round.
Qed.

Lemma steady_align_and_land : steady align_and_land.
Proof.
  unfold align_and_land. repeat steady_step; auto using steady_align_loop.
Qed.

Lemma steady_return_home (locations : gmap string LocationData) :
  steady (_return_home locations).
Proof.
  unfold _return_home. repeat steady_step;
    auto using steady_execute_path, steady_align_and_land.
Qed.

(** ** The monad *)

Lemma bind_assoc_at {A B C} (c : M A) (k : A -> M B) (h : B -> M C) self :
  bind (bind c k) h self = bind c (fun a => bind (k a) h) self.
Proof. unfold bind. destruct (c self) as [[a|e|] s1]; reflexivity. Qed.

Lemma bind_ext_at {A B} (c : M A) (k k' : A -> M B) self :
  (forall a s1, k a s1 = k' a s1) -> bind c k self = bind c k' self.
Proof. intros H. unfold bind. destruct (c self) as [[a|e|] s1]; auto. Qed.

Lemma bind_Ok {A B} (c : M A) (k : A -> M B) self a s1 :
  c self = (Ok a, s1) -> bind c k self = k a s1.
Proof. intros H. unfold bind. now rewrite H. Qed.

Lemma bind_Raise {A B} (c : M A) (k : A -> M B) self e s1 :
  c self = (Raise e, s1) -> bind c k self = (Raise e, s1).
Proof. intros H. unfold bind. now rewrite H. Qed.

Lemma bind_Pending {A B} (c : M A) (k : A -> M B) self s1 :
  c self = (Pending, s1) -> bind c k self = (Pending, s1).
Proof. intros H. unfold bind. now rewrite H. Qed.

(** ** Sleeping *)

(** The waits of the capture and of the alignment end. *)
Lemma sleep_half self :
  sleep (PyFloat 0.5) self
  = (Ok tt, set_log (log self ++ [Sleep (PyFloat 0.5)]) self).
Proof. reflexivity. Qed.

Lemma sleep_one self :
  sleep (PyInt 1) self = (Ok tt, set_log (log self ++ [Sleep (PyInt 1)]) self).
Proof. reflexivity. Qed.

(** ** The mission record and the in-progress flag *)

Lemma steady_flight locations d : steady (flight locations d).
Proof.
  unfold flight. repeat steady_step;
    auto using steady_takeoff_sequence, steady_execute_path,
      steady_capture_location, steady_return_home.
Qed.

Lemma mission_steps_flight locations d self :
  mission_steps locations d self
  = bind (flight locations d)
      (fun _ =>
         setitem_current_mission "status" (Str (MissionStatus_value COMPLETED)) ;;;
         fun self => (Ok (current_mission self), self)) self.
Proof.
  unfold mission_steps, flight.
  repeat (rewrite bind_assoc_at; apply bind_ext_at; intros; simpl).
  reflexivity.
Qed.

(** What the statements under [try:] leave behind, in a controller that
    holds the mission record [m]. *)
Lemma mission_steps_outcome locations d self m :
  current_mission self = Some m ->
  exists s1,
    drone s1 = drone self
    /\ mission_in_progress s1 = mission_in_progress self
    /\ image_buffer s1 = image_buffer (snd (flight locations d self))
    /\ log s1 = log (snd (flight locations d self))
    /\ match fst (flight locations d self) with
       | Ok _ =>
           let m' := <["status" := Str (MissionStatus_value COMPLETED)]> m in
           mission_steps locations d self = (Ok (Some m'), s1)
           /\ current_mission s1 = Some m'
       | Raise e =>
           mission_steps locations d self = (Raise e, s1)
           /\ current_mission s1 = Some m
       | Pending =>
           mission_steps locations d self = (Pending, s1)
           /\ current_mission s1 = Some m
       end.
Proof.
  intros Hm. rewrite mission_steps_flight. unfold bind.
  destruct (steady_flight locations d self) as (Hd & Hp & Hc & _).
  destruct (flight locations d self) as [[[]|e|] s1]; simpl in *.
  - unfold setitem_current_mission. rewrite Hc, Hm. simpl.
    exists (set_current_mission
              (Some (<["status" := Str (MissionStatus_value COMPLETED)]> m)) s1).
    repeat split; simpl; auto.
  - exists s1. repeat split; auto. congruence.
  - exists s1. repeat split; auto. congruence.
Qed.

(** [execute_mission], once the call is accepted. *)
Lemma execute_mission_accepted locations now location_id self d :
  mission_in_progress self = false ->
  locations !! location_id = Some d ->
  is_empty d = false ->
  execute_mission locations now location_id self
  = try_finally
      (try_except (mission_steps locations d) mission_failed)
      (set_mission_in_progress false)
      (accepted location_id now self).
Proof.
  intros Hp Hl He. unfold execute_mission. rewrite Hp, Hl, He. reflexivity.
Qed.

(** [execute_mission] on an accepted call, from the outcome of the flight. *)
Lemma execute_mission_outcome locations now location_id d self :
  mission_in_progress self = false ->
  locations !! location_id = Some d ->
  is_empty d = false ->
  execute_mission locations now location_id self
  = let s1 := snd (flight locations d (accepted location_id now self)) in
    match fst (flight locations d (accepted location_id now self)) with
    | Ok _ =>
        let m := <["status" := Str (MissionStatus_value COMPLETED)]>
                   (new_mission location_id now) in
        (Ok (Some m),
         set_mission_in_progress false (set_current_mission (Some m) s1))
    | Raise e =>
        let m := <["error" := Str (str_exn e)]>
                   (<["status" := Str (MissionStatus_value FAILED)]>
                      (new_mission location_id now)) in
        (Raise (MissionExecutionError e),
         set_mission_in_progress false (set_current_mission (Some m) s1))
    | Pending => (Pending, s1)
    end.
Proof.
  intros Hp Hl He.
  rewrite (execute_mission_accepted _ _ _ _ d Hp Hl He).
  unfold try_finally, try_except. rewrite mission_steps_flight. unfold bind.
  destruct (steady_flight locations d (accepted location_id now self))
    as (_ & _ & Hc & _).
  destruct (flight locations d (accepted location_id now self))
    as [[[]|e|] s1]; simpl in *.
  - unfold setitem_current_mission. rewrite Hc. reflexivity.
  - unfold mission_failed, bind, setitem_current_mission. rewrite Hc. reflexivity.
  - reflexivity.
Qed.

(** A call that stays suspended keeps the flag set and the record in
    progress. *)
Lemma execute_mission_pending locations now location_id d self :
  mission_in_progress self = false ->
  locations !! location_id = Some d ->
  is_empty d = false ->
  fst (execute_mission locations now location_id self) = Pending ->
  mission_in_progress (snd (execute_mission locations now location_id self))
  = true
  /\ current_mission (snd (execute_mission locations now location_id self))
     = Some (new_mission location_id now).
Proof.
  intros Hp Hl He. rewrite (execute_mission_outcome _ _ _ d self Hp Hl He).
  cbv zeta.
  destruct (steady_flight locations d (accepted location_id now self))
    as (_ & Hf & Hc & _).
  destruct (flight locations d (accepted location_id now self))
    as [[[]|e|] s1]; simpl in *; try discriminate.
  intros _. auto.
Qed.

(** C8: [execute_mission] fails with Conflict when a mission is in progress,
    and with NotFound when the location is not in the table; in both cases
    the controller is left exactly as it was: the same flag, the same mission
    record, nothing sent (in the second case the flag remains false). *)
Theorem execute_mission_rejects locations now location_id self :
  (mission_in_progress self = true ->
   execute_mission locations now location_id self = (Raise Conflict, self))
  /\ (mission_in_progress self = false ->
      locations !! location_id = None ->
      execute_mission locations now location_id self
      = (Raise (NotFound location_id), self)
      /\ mission_in_progress
           (snd (execute_mission locations now location_id self)) = false).
Proof.
  unfold execute_mission. split.
  - intros ->. reflexivity.
  - intros Hp ->. rewrite Hp. split; [reflexivity | exact Hp].
Qed.

Lemma execute_mission_rejects_witness :
  execute_mission Scenario.table 5%float "roof"
    (Scenario.busy (Scenario.link 80 (fun _ => None)))
  = (Raise Conflict, Scenario.busy (Scenario.link 80 (fun _ => None)))
  /\ execute_mission Scenario.table 5%float "cellar"
       (Scenario.idle (Scenario.link 80 (fun _ => None)))
     = (Raise (NotFound "cellar"),
        Scenario.idle (Scenario.link 80 (fun _ => None))).
Proof.
  split.
  - apply (execute_mission_rejects Scenario.table 5%float "roof"
             (Scenario.busy (Scenario.link 80 (fun _ => None)))).
    reflexivity.
  - apply (execute_mission_rejects Scenario.table 5%float "cellar"
             (Scenario.idle (Scenario.link 80 (fun _ => None))));
      vm_compute; reflexivity.
Defined.

(** C5: whenever a step of an accepted mission fails with [e],
    [execute_mission] sets the status of the mission to failed, writes the
    text of [e] into its error, clears the in-progress flag, and raises one
    mission-execution error that carries [e] as its cause; and the flag is
    clear after every accepted call, however it ends, by a return or by an
    exception.  (A call that never ends, suspended in a sleep without end,
    has not left the mission: the flag is still set.) *)
Theorem execute_mission_failure locations now location_id d :
  locations !! location_id = Some d ->
  is_empty d = false ->
  forall self,
    mission_in_progress self = false ->
    (forall e,
       fst (mission_steps locations d (accepted location_id now self)) = Raise e ->
       exists s',
         execute_mission locations now location_id self
         = (Raise (MissionExecutionError e), s')
         /\ context_of (MissionExecutionError e) = Some e
         /\ current_mission s'
            = Some (<["error" := Str (str_exn e)]>
                      (<["status" := Str (MissionStatus_value FAILED)]>
                         (new_mission location_id now)))
         /\ mission_in_progress s' = false)
    /\ mission_in_progress
         (snd (execute_mission locations now location_id self))
       = match fst (execute_mission locations now location_id self) with
         | Pending => true
         | _ => false
         end.
Proof.
  intros Hl He self Hp. split.
  - rewrite (execute_mission_accepted _ _ _ _ d Hp Hl He).
    unfold try_finally, try_except.
    destruct (mission_steps_outcome locations d (accepted location_id now self)
                (new_mission location_id now) eq_refl)
      as (s1 & _ & _ & _ & _ & Hout).
    intros e Hfail.
    destruct (fst (flight locations d (accepted location_id now self)))
      as [[]|e'|].
    + destruct Hout as [E _]. rewrite E in Hfail. discriminate.
    + destruct Hout as [E Hc]. rewrite E in Hfail. simpl in Hfail.
      injection Hfail as ->. rewrite E.
      unfold mission_failed, bind, setitem_current_mission. rewrite Hc. simpl.
      eexists. repeat split.
    + destruct Hout as [E _]. rewrite E in Hfail. discriminate.
  - pose proof (execute_mission_pending locations now location_id d self
                  Hp Hl He) as Hpend.
    rewrite (execute_mission_outcome _ _ _ d self Hp Hl He) in *.
    cbv zeta in *.
    destruct (fst (flight locations d (accepted location_id now self)))
      as [[]|e'|]; simpl in *; try reflexivity.
    now apply Hpend.
Qed.

Lemma execute_mission_failure_witness :
  exists s',
    execute_mission Scenario.table 5%float "roof"
      (Scenario.idle (Scenario.link 15 (fun _ => Some Scenario.frame_aligned)))
    = (Raise (MissionExecutionError (InsufficientBattery 15)), s')
    /\ context_of (MissionExecutionError (InsufficientBattery 15))
       = Some (InsufficientBattery 15)
    /\ current_mission s'
       = Some (<["error" := Str "Battery too low for mission: 15%"]>
                 (<["status" := Str "failed"]> (new_mission "roof" 5%float)))
    /\ mission_in_progress s' = false.
Proof.
  refine (proj1 (execute_mission_failure Scenario.table 5%float "roof"
                   Scenario.roof _ _ _ _) (InsufficientBattery 15) _);
    vm_compute; reflexivity.
Defined.

(** The keys of the record of a completed mission. *)
Lemma completed_mission_keys location_id now (key : string) :
  is_Some ((<["status" := Str (MissionStatus_value COMPLETED)]>
              (new_mission location_id now)) !! key)
  <-> key = "location_id" \/ key = "start_time" \/ key = "status".
Proof.
  unfold new_mission. rewrite !lookup_insert_is_Some, lookup_empty.
  split.
  - intros [E|[_ [E|[_ [E|[_ [E|[_ H]]]]]]]]; auto.
    destruct H as [? H]. discriminate.
  - intros [E|[E|E]]; subst; auto.
    + right. split; [discriminate|]. right. split; [discriminate|].
      right. split; [discriminate|]. auto.
    + right. split; [discriminate|]. right. split; [discriminate|]. auto.
Qed.

(** C6, as the code has it: when every step of an accepted mission succeeds,
    [execute_mission] sets the status of the mission to completed, clears the
    in-progress flag and returns the mission record, which is the one the
    controller keeps; the record holds the location, the start time and the
    status, and nothing else: no completion time is recorded. *)
Theorem execute_mission_success locations now location_id d self x :
  mission_in_progress self = false ->
  locations !! location_id = Some d ->
  is_empty d = false ->
  fst (mission_steps locations d (accepted location_id now self)) = Ok x ->
  exists m s',
    execute_mission locations now location_id self = (Ok (Some m), s')
    /\ current_mission s' = Some m
    /\ mission_in_progress s' = false
    /\ m !! "status" = Some (Str (MissionStatus_value COMPLETED))
    /\ m !! "location_id" = Some (Str location_id)
    /\ m !! "start_time" = Some (Float now)
    /\ (forall key, is_Some (m !! key) ->
          key = "location_id" \/ key = "start_time" \/ key = "status")
    /\ ~ records_completion_time m.
Proof.
  intros Hp Hl He Hok.
  rewrite (execute_mission_accepted _ _ _ _ d Hp Hl He).
  unfold try_finally, try_except.
  destruct (mission_steps_outcome locations d (accepted location_id now self)
              (new_mission location_id now) eq_refl)
    as (s1 & _ & _ & _ & _ & Hout).
  destruct (fst (flight locations d (accepted location_id now self)))
    as [[]|e'|].
  - destruct Hout as [E Hc]. rewrite E. simpl.
    eexists _, _. split; [reflexivity|]. simpl.
    split; [exact Hc|]. split; [reflexivity|].
    split; [apply lookup_insert_eq|].
    split; [reflexivity|]. split; [reflexivity|].
    split; [intros key; apply completed_mission_keys|].
    unfold records_completion_time. intros H.
    apply completed_mission_keys in H.
    destruct H as [H|[H|H]]; discriminate.
  - destruct Hout as [E _]. rewrite E in Hok. discriminate.
  - destruct Hout as [E _]. rewrite E in Hok. discriminate.
Qed.

Lemma execute_mission_success_witness :
  exists m s',
    execute_mission Scenario.table 5%float "roof"
      (Scenario.idle (Scenario.link 80 (fun _ => Some Scenario.frame_aligned)))
    = (Ok (Some m), s')
    /\ current_mission s' = Some m
    /\ mission_in_progress s' = false
    /\ m !! "status" = Some (Str "completed")
    /\ m !! "location_id" = Some (Str "roof")
    /\ m !! "start_time" = Some (Float 5%float)
    /\ (forall key, is_Some (m !! key) ->
          key = "location_id" \/ key = "start_time" \/ key = "status")
    /\ ~ records_completion_time m.
Proof.
  refine (execute_mission_success Scenario.table 5%float "roof"
            Scenario.roof
            _ (Some (<["status" := Str "completed"]> (new_mission "roof" 5%float)))
            _ _ _ _);
    vm_compute; reflexivity.
Defined.

(** C6, as the claim has it, fails: a mission to the roof that succeeds at
    every step returns a record marked completed that holds no completion
    time. *)
Lemma completion_time_not_recorded :
  exists m s',
    execute_mission Scenario.table 5%float "roof"
      (Scenario.idle (Scenario.link 80 (fun _ => Some Scenario.frame_aligned)))
    = (Ok (Some m), s')
    /\ m !! "status" = Some (Str "completed")
    /\ current_mission s' = Some m
    /\ ~ records_completion_time m.
Proof.
  eexists _, _. split; [vm_compute; reflexivity|].
  split; [vm_compute; reflexivity|]. split; [reflexivity|].
  unfold records_completion_time. intros [v H]. vm_compute in H. discriminate.
Qed.

(** ** Preflight *)

Lemma emitted_app {A} (c : M A) self evs :
  log (snd (c self)) = log self ++ evs -> emitted c self = evs.
Proof. intros H. unfold emitted. rewrite H. apply drop_app_length. Qed.

Lemma takeoff_low_battery self :
  battery (drone self) < 20 ->
  _takeoff_sequence self
  = (Raise (InsufficientBattery (battery (drone self))),
     set_log (log self ++ [GetBattery]) self).
Proof.
  intros H. apply Z.ltb_lt in H.
  unfold _takeoff_sequence, bind, get_battery. rewrite H. reflexivity.
Qed.

Lemma takeoff_no_frame self :
  20 <= battery (drone self) ->
  video (drone self) (frames_read (log self)) = None ->
  _takeoff_sequence self
  = (Raise PreflightVideoUnavailable,
     set_log (log self ++ [GetBattery; GetFrame]) self).
Proof.
  intros H Hv. apply Z.ltb_ge in H.
  unfold _takeoff_sequence, bind, get_battery, get_frame. rewrite H. simpl.
  rewrite frames_read_app, Nat.add_0_r, Hv. simpl.
  rewrite <- app_assoc. reflexivity.
Qed.

Lemma takeoff_no_marker self f :
  20 <= battery (drone self) ->
  video (drone self) (frames_read (log self)) = Some f ->
  ~ home_marker_detected f ->
  _takeoff_sequence self
  = (Raise PreflightVisionFailure,
     set_log (log self ++ [GetBattery; GetFrame]) self).
Proof.
  intros H Hv Hn. apply Z.ltb_ge in H.
  unfold _takeoff_sequence, bind, get_battery, get_frame. rewrite H. simpl.
  rewrite frames_read_app, Nat.add_0_r, Hv.
  rewrite (get_landing_alignment_undetected f Hn). simpl.
  rewrite <- app_assoc. reflexivity.
Qed.

Lemma takeoff_marker_seen self f :
  20 <= battery (drone self) ->
  video (drone self) (frames_read (log self)) = Some f ->
  home_marker_detected f ->
  exists evs,
    log (snd (_takeoff_sequence self))
    = log self ++ GetBattery :: GetFrame :: Send "takeoff" :: evs.
Proof.
  intros H Hv Hin. apply Z.ltb_ge in H.
  destruct (snd (get_landing_alignment f)) as [a|] eqn:Ea;
    [|apply alignment_sample_iff_detected in Ea; contradiction].
  unfold _takeoff_sequence, bind, get_battery, get_frame, _send_command.
  rewrite H. simpl. rewrite frames_read_app, Nat.add_0_r, Hv.
  destruct (get_landing_alignment f) as [b al]. simpl in Ea. subst al. simpl.
  rewrite !sent_app. simpl.
  destruct (acks (drone self) ((sent (log self) ++ []) ++ []) "takeoff"); simpl.
  - change (int_of_float 100) with (@inr exn Z 100). simpl.
    destruct (acks (drone self) _ _); simpl;
      eexists; rewrite <- !app_assoc; simpl; reflexivity.
  - eexists. rewrite <- !app_assoc. simpl. reflexivity.
Qed.

(** A mission whose takeoff sequence fails. *)
Lemma flight_takeoff_fails locations d self e s1 :
  _takeoff_sequence self = (Raise e, s1) ->
  flight locations d self = (Raise e, s1).
Proof. intros H. unfold flight. now apply bind_Raise. Qed.

(** C7: the takeoff sequence reads the battery before anything else.  Below
    20 it fails with InsufficientBattery and has sent no command; an accepted
    mission then fails with that cause and no command sent (so with a battery
    at 15).  From 20 on, it asks for a frame: without the home marker on it,
    or without a frame, it fails before any command is sent; with the home
    marker on it, the takeoff command follows. *)
Theorem takeoff_sequence_preflight (self : DroneController) :
  let level := battery (drone self) in
  let frame := video (drone self) (frames_read (log self)) in
  (exists evs, emitted _takeoff_sequence self = GetBattery :: evs)
  /\ (level < 20 ->
      fst (_takeoff_sequence self) = Raise (InsufficientBattery level)
      /\ emitted _takeoff_sequence self = [GetBattery]
      /\ forall locations now location_id d,
           mission_in_progress self = false ->
           locations !! location_id = Some d ->
           is_empty d = false ->
           fst (execute_mission locations now location_id self)
           = Raise (MissionExecutionError (InsufficientBattery level))
           /\ sent (log (snd (execute_mission locations now location_id self)))
              = sent (log self))
  /\ (20 <= level ->
      (forall f, frame = Some f -> ~ home_marker_detected f ->
         fst (_takeoff_sequence self) = Raise PreflightVisionFailure
         /\ emitted _takeoff_sequence self = [GetBattery; GetFrame])
      /\ (frame = None ->
          fst (_takeoff_sequence self) = Raise PreflightVideoUnavailable
          /\ emitted _takeoff_sequence self = [GetBattery; GetFrame])
      /\ (forall f, frame = Some f -> home_marker_detected f ->
          exists evs,
            emitted _takeoff_sequence self
            = GetBattery :: GetFrame :: Send "takeoff" :: evs)).
Proof.
  intros level frame. subst level frame. split; [|split].
  - destruct (Z.lt_ge_cases (battery (drone self)) 20) as [Hlow|Hok].
    + exists []. apply emitted_app. now rewrite takeoff_low_battery.
    + destruct (video (drone self) (frames_read (log self))) as [f|] eqn:Hv.
      * destruct (in_dec Z.eq_dec settings.HOME_MARKER_ID
                    (fst (detect_markers f))) as [Hin|Hn].
        -- destruct (takeoff_marker_seen self f Hok Hv Hin) as [evs E].
           eexists. apply emitted_app. exact E.
        -- exists [GetFrame]. apply emitted_app.
           now rewrite (takeoff_no_marker self f).
      * exists [GetFrame]. apply emitted_app. now rewrite takeoff_no_frame.
  - intros Hlow. pose proof (takeoff_low_battery self Hlow) as E.
    split; [now rewrite E|]. split; [apply emitted_app; now rewrite E|].
    intros locations now location_id d Hp Hl He.
    rewrite (execute_mission_outcome _ _ _ d self Hp Hl He).
    rewrite (flight_takeoff_fails locations d _ _ _
               (takeoff_low_battery (accepted location_id now self) Hlow)).
    simpl. split; [reflexivity|].
    rewrite sent_app. simpl. apply app_nil_r.
  - intros Hok. split; [|split].
    + intros f Hv Hn. pose proof (takeoff_no_marker self f Hok Hv Hn) as E.
      split; [now rewrite E | apply emitted_app; now rewrite E].
    + intros Hv. pose proof (takeoff_no_frame self Hok Hv) as E.
      split; [now rewrite E | apply emitted_app; now rewrite E].
    + intros f Hv Hin.
      destruct (takeoff_marker_seen self f Hok Hv Hin) as [evs E].
      exists evs. apply emitted_app. exact E.
Qed.

Lemma takeoff_sequence_preflight_witness :
  fst (execute_mission Scenario.table 5%float "roof"
         (Scenario.idle (Scenario.link 15 (fun _ => Some Scenario.frame_aligned))))
  = Raise (MissionExecutionError (InsufficientBattery 15))
  /\ sent (log (snd (execute_mission Scenario.table 5%float "roof"
                       (Scenario.idle
                          (Scenario.link 15 (fun _ => Some Scenario.frame_aligned))))))
     = []
  /\ fst (_takeoff_sequence
            (Scenario.idle (Scenario.link 80 (fun _ => Some Scenario.frame_without_home))))
     = Raise PreflightVisionFailure.
Proof.
  split; [|split].
  - refine (proj1 (proj2 (proj2 (proj1 (proj2
              (takeoff_sequence_preflight
                 (Scenario.idle
                    (Scenario.link 15 (fun _ => Some Scenario.frame_aligned)))))
              _)) Scenario.table 5%float "roof" _ _ _ _));
      vm_compute; reflexivity.
  - refine (proj2 (proj2 (proj2 (proj1 (proj2
              (takeoff_sequence_preflight
                 (Scenario.idle
                    (Scenario.link 15 (fun _ => Some Scenario.frame_aligned)))))
              _)) Scenario.table 5%float "roof" _ _ _ _));
      vm_compute; reflexivity.
  - refine (proj1 (proj1 (proj2 (proj2
              (takeoff_sequence_preflight
                 (Scenario.idle
                    (Scenario.link 80 (fun _ => Some Scenario.frame_without_home)))))
              _) Scenario.frame_without_home _ _)).
    + vm_compute. discriminate.
    + reflexivity.
    + vm_compute. intros [H|[]]. discriminate.
Defined.

(** ** Paths *)

(** One command of a path: its text, its acknowledgement, its delay. *)
Lemma execute_path_cons (cmd : MovementCommand) rest self :
  _execute_path (cmd :: rest) self
  = match command_of cmd with
    | inl e => (Raise e, self)
    | inr c =>
        let s1 := set_log (log self ++ [Send c]) self in
        if acks (drone self) (sent (log self)) c then
          match asyncio_sleep (delay_of cmd) with
          | Ok _ =>
              _execute_path rest
                (set_log (log s1 ++ [Sleep (delay_of cmd)]) s1)
          | Raise e => (Raise e, s1)
          | Pending => (Pending, set_log (log s1 ++ [Sleep (delay_of cmd)]) s1)
          end
        else (Raise (CommandRejected c), s1)
    end.
Proof.
  simpl. unfold bind, lift, _send_command, sleep, delay_of.
  destruct (command_of cmd) as [e|c]; simpl; [reflexivity|].
  destruct (acks (drone self) (sent (log self)) c); simpl; [|reflexivity].
  destruct (asyncio_sleep (default (PyInt 2) (delay cmd))) as [[]|e|];
    reflexivity.
Qed.

(** A path touches neither the video nor the image buffer. *)
Lemma execute_path_quiet (p : list MovementCommand) self :
  frames_read (log (snd (_execute_path p self))) = frames_read (log self)
  /\ image_buffer (snd (_execute_path p self)) = image_buffer self.
Proof.
  revert self. induction p as [|cmd p IH]; intros self; [simpl; auto|].
  rewrite execute_path_cons.
  destruct (command_of cmd) as [e|c]; simpl; [auto|].
  destruct (acks (drone self) (sent (log self)) c); simpl.
  - destruct (asyncio_sleep (delay_of cmd)) as [[]|e|]; simpl.
    + match goal with
      | |- context [_execute_path p ?s] => destruct (IH s) as [Hf Hb]
      end.
      rewrite Hf, Hb. simpl. rewrite !frames_read_app. simpl. split; [lia|auto].
    + rewrite frames_read_app. simpl. split; [lia|auto].
    + rewrite !frames_read_app. simpl. split; [lia|auto].
  - rewrite frames_read_app. simpl. split; [lia|auto].
Qed.

(** A path that completes has sent the texts of its commands, in order. *)
Lemma execute_path_sent (p : list MovementCommand) self s' :
  _execute_path p self = (Ok tt, s') ->
  sent (log s') = sent (log self) ++ path_text p.
Proof.
  revert self. induction p as [|cmd p IH]; intros self.
  - simpl. intros [= <-]. now rewrite app_nil_r.
  - rewrite execute_path_cons. unfold path_text. simpl.
    destruct (command_of cmd) as [e|c]; simpl; [discriminate|].
    destruct (acks (drone self) (sent (log self)) c); simpl; [|discriminate].
    destruct (asyncio_sleep (delay_of cmd)) as [[]|e|]; try discriminate.
    intros H. apply IH in H. rewrite H. simpl.
    rewrite !sent_app. simpl. rewrite app_nil_r, <- app_assoc. reflexivity.
Qed.

(** A rejected command fails the path at once. *)
Lemma execute_path_rejected (cmd : MovementCommand) rest c self :
  command_of cmd = inr c ->
  acks (drone self) (sent (log self)) c = false ->
  _execute_path (cmd :: rest) self
  = (Raise (CommandRejected c), set_log (log self ++ [Send c]) self).
Proof.
  intros Hc Ha. rewrite execute_path_cons, Hc. simpl. now rewrite Ha.
Qed.

(** The failure of a path is the failure of one of its commands: its
    distance has no text, the link rejects it, or its delay is an integer
    too large for a sleep. *)
Lemma execute_path_raises (p : list MovementCommand) self e :
  fst (_execute_path p self) = Raise e ->
  exists cmd, In cmd p
    /\ (command_of cmd = inl e
        \/ (exists c, command_of cmd = inr c /\ e = CommandRejected c)
        \/ asyncio_sleep (delay_of cmd) = Raise e).
Proof.
  revert self. induction p as [|cmd p IH]; intros self; [simpl; discriminate|].
  rewrite execute_path_cons.
  destruct (command_of cmd) as [e0|c] eqn:Ec; simpl.
  - intros [= <-]. exists cmd. auto.
  - destruct (acks (drone self) (sent (log self)) c); simpl.
    + destruct (asyncio_sleep (delay_of cmd)) as [[]|e0|] eqn:Es; simpl.
      * intros H. apply IH in H. destruct H as (cmd' & Hin & H). eauto.
      * intros [= <-]. exists cmd. auto.
      * discriminate.
    + intros [= <-]. exists cmd. split; [auto|]. right. left. eauto.
Qed.

(** ** Capture *)

Lemma delivered_app link k a b :
  delivered link k (a + b)
  = delivered link k a ++ delivered link (k + a) b.
Proof. unfold delivered. now rewrite seq_app, flat_map_app. Qed.

Lemma capture_frames_spec (n : nat) self :
  let s' := snd (capture_frames n self) in
  fst (capture_frames n self) = Ok tt
  /\ sent (log s') = sent (log self)
  /\ frames_read (log s') = (frames_read (log self) + n)%nat
  /\ image_buffer s'
     = image_buffer self ++ delivered (drone self) (frames_read (log self)) n.
Proof.
  revert self. induction n as [|n IH]; intros self.
  - simpl. rewrite app_nil_r. auto.
  - cbn [capture_frames].
    rewrite (bind_Ok get_frame _ self _ _ eq_refl).
    change (S n) with (1 + n)%nat. rewrite delivered_app.
    unfold delivered at 1. simpl flat_map.
    destruct (video (drone self) (frames_read (log self))) as [f|];
      [rewrite (bind_Ok (modify _) _ _ tt _ eq_refl)
      |rewrite (bind_Ok (ret tt) _ _ tt _ eq_refl)];
      rewrite (bind_Ok (sleep _) _ _ tt _ (sleep_half _));
      match goal with
      | |- context [capture_frames n ?s] =>
          destruct (IH s) as (Hr & Hs & Hf & Hb)
      end;
      rewrite Hr, Hs, Hf, Hb; simpl;
      rewrite !sent_app, !frames_read_app; simpl;
      rewrite ?app_nil_r, <- ?app_assoc;
      replace (frames_read (log self) + 1 + 0 + n)%nat
        with (frames_read (log self) + (1 + n))%nat by lia;
      replace (frames_read (log self) + 1 + 0)%nat
        with (frames_read (log self) + 1)%nat by lia;
      auto.
Qed.

Lemma capture_each_cons (pt : CapturePoint) (pts : list CapturePoint) :
  capture_each (pt :: pts)
  = (reposition pt ;;;
     capture_frames (Z.to_nat (default 1 (frames pt))) ;;;
     capture_each pts).
Proof. reflexivity. Qed.

Lemma reposition_quiet (pt : CapturePoint) self :
  frames_read (log (snd (reposition pt self))) = frames_read (log self)
  /\ image_buffer (snd (reposition pt self)) = image_buffer self
  /\ drone (snd (reposition pt self)) = drone self.
Proof.
  destruct (steady_reposition pt self) as (Hd & _).
  unfold reposition in *. destruct (position pt) as [p|]; simpl; [|auto].
  destruct (execute_path_quiet [p] self) as [Hf Hb]. auto.
Qed.

Lemma capture_each_spec (pts : list CapturePoint) self :
  let k := frames_read (log self) in
  let r := capture_each pts self in
  (k <= frames_read (log (snd r)))%nat
  /\ image_buffer (snd r)
     = image_buffer self
       ++ delivered (drone self) k (frames_read (log (snd r)) - k)
  /\ (fst r = Ok tt ->
      frames_read (log (snd r)) = (k + frames_asked pts)%nat
      /\ sent (log (snd r)) = sent (log self) ++ path_text (positions pts))
  /\ (positions pts = [] -> fst r = Ok tt)
  /\ (forall e, fst r = Raise e ->
      exists p, In p (positions pts)
        /\ (command_of p = inl e
            \/ (exists c, command_of p = inr c /\ e = CommandRejected c)
            \/ asyncio_sleep (delay_of p) = Raise e)).
Proof.
  revert self. induction pts as [|pt pts IH]; intros self k r; subst k r.
  - simpl. rewrite Nat.sub_diag, !app_nil_r, Nat.add_0_r.
    repeat split; auto. discriminate.
  - rewrite capture_each_cons.
    destruct (reposition_quiet pt self) as (Hqf & Hqb & Hqd).
    destruct (reposition pt self) as [[[]|e|] s1] eqn:Er;
      simpl in Hqf, Hqb, Hqd;
      [rewrite (bind_Ok _ _ _ _ _ Er) | rewrite (bind_Raise _ _ _ _ _ Er)
      |rewrite (bind_Pending _ _ _ _ Er)].
    + pose proof (capture_frames_spec (Z.to_nat (default 1 (frames pt))) s1)
        as (Hr & Hs & Hf & Hb).
      destruct (steady_capture_frames (Z.to_nat (default 1 (frames pt))) s1)
        as (Hd & _).
      destruct (capture_frames (Z.to_nat (default 1 (frames pt))) s1)
        as [[[]|e|] s2] eqn:Ec; simpl in Hr, Hs, Hf, Hb, Hd; try discriminate.
      rewrite (bind_Ok _ _ _ _ _ Ec).
      destruct (IH s2) as (Hle & Hbuf & Hok & Hnone & Herr).
      rewrite Hf, Hb, Hd, Hqf, Hqb, Hqd in *.
      split; [lia|]. split; [|split; [|split]].
      * rewrite Hbuf, <- app_assoc. f_equal.
        rewrite <- delivered_app. f_equal. lia.
      * intros Hres. destruct (Hok Hres) as [Hfr Hsent].
        split; [simpl; lia|]. rewrite Hsent, Hs.
        unfold reposition in Er. unfold positions, path_text. simpl.
        destruct (position pt) as [p|]; simpl.
        -- apply execute_path_sent in Er. rewrite Er. unfold path_text. simpl.
           rewrite app_nil_r, <- app_assoc. reflexivity.
        -- injection Er as <-. reflexivity.
      * intros Hpos. apply Hnone. unfold positions in *. simpl in Hpos.
        destruct (position pt); [discriminate | exact Hpos].
      * intros e Hres. destruct (Herr e Hres) as (p & Hin & Hp).
        exists p. split; [|exact Hp]. unfold positions in *. simpl.
        apply in_or_app. now right.
    + simpl. rewrite Hqf, Hqb, Nat.sub_diag. unfold delivered. simpl.
      rewrite app_nil_r. split; [lia|]. split; [reflexivity|].
      split; [discriminate|]. split.
      * intros Hpos. unfold reposition in Er. unfold positions in Hpos.
        simpl in Hpos. destruct (position pt); discriminate.
      * intros e' [= <-]. unfold reposition in Er.
        destruct (position pt) as [p|] eqn:Ep; [|discriminate].
        assert (Hr : fst (_execute_path [p] self) = Raise e) by now rewrite Er.
        apply execute_path_raises in Hr. destruct Hr as (cmd & [<-|[]] & Hc).
        exists p. split; [|exact Hc]. unfold positions. simpl. now left.
    + simpl. rewrite Hqf, Hqb, Nat.sub_diag. unfold delivered. simpl.
      rewrite app_nil_r. split; [lia|]. split; [reflexivity|].
      split; [discriminate|]. split; [|discriminate].
      intros Hpos. unfold reposition in Er. unfold positions in Hpos.
      simpl in Hpos. destruct (position pt); discriminate.
Qed.

Lemma capture_location_unfold (pts : list CapturePoint) self :
  _capture_location pts self = capture_each pts (set_image_buffer [] self).
Proof. reflexivity. Qed.

(** C9: the capture phase drops the buffer it finds and leaves in it the
    frames that the video delivered at the ticks it sampled, in the order of
    the ticks (point after point, frame after frame), without the ticks that
    delivered none.  A phase that completes has sampled each tick once: a
    missing frame is not asked for again.  The only failure of the phase is
    the failure of a repositioning command (its distance has no text, the
    link rejects it, or its delay is an integer too large for a sleep), so it
    never fails for the number of frames; without repositioning it
    completes.  With two points of 2 and 1 frames that all arrive, the buffer
    holds these 3 frames in order. *)
Theorem capture_location_spec (pts : list CapturePoint) self :
  let k := frames_read (log self) in
  let r := _capture_location pts self in
  image_buffer (snd r)
  = delivered (drone self) k (frames_read (log (snd r)) - k)
  /\ (fst r = Ok tt ->
      frames_read (log (snd r)) = (k + frames_asked pts)%nat)
  /\ (positions pts = [] -> fst r = Ok tt)
  /\ (forall e, fst r = Raise e ->
      exists p, In p (positions pts)
        /\ (command_of p = inl e
            \/ (exists c, command_of p = inr c /\ e = CommandRejected c)
            \/ asyncio_sleep (delay_of p) = Raise e))
  /\ (forall pt1 pt2 f0 f1 f2,
        pts = [pt1; pt2] ->
        frames pt1 = Some 2 -> frames pt2 = Some 1 ->
        video (drone self) k = Some f0 ->
        video (drone self) (k + 1) = Some f1 ->
        video (drone self) (k + 2) = Some f2 ->
        fst r = Ok tt ->
        image_buffer (snd r) = [f0; f1; f2]
        /\ length (image_buffer (snd r)) = 3%nat).
Proof.
  intros k r. subst k r. rewrite capture_location_unfold.
  destruct (capture_each_spec pts (set_image_buffer [] self))
    as (Hle & Hbuf & Hok & Hnone & Herr).
  simpl in *.
  split; [exact Hbuf|]. split; [intros H; now apply Hok|].
  split; [exact Hnone|]. split; [exact Herr|].
  intros pt1 pt2 f0 f1 f2 -> H1 H2 Hv0 Hv1 Hv2 Hres.
  destruct (Hok Hres) as [Hfr _]. rewrite Hbuf, Hfr.
  simpl. rewrite H1, H2. simpl.
  replace (frames_read (log self) + 3 - frames_read (log self))%nat
    with 3%nat by lia.
  unfold delivered. simpl.
  replace (S (frames_read (log self))) with (frames_read (log self) + 1)%nat
    by lia.
  replace (S (frames_read (log self) + 1)) with (frames_read (log self) + 2)%nat
    by lia.
  rewrite Hv0, Hv1, Hv2. split; reflexivity.
Qed.

Lemma capture_location_spec_witness :
  image_buffer
    (snd (_capture_location
            [ {| position := None; frames := Some 2 |};
              {| position := None; frames := Some 1 |} ]
            (Scenario.busy
               (Scenario.link 80
                  (fun i => if (i =? 2)%nat then Some Scenario.frame_off_centre
                            else Some Scenario.frame_aligned)))))
  = [Scenario.frame_aligned; Scenario.frame_off_centre; Scenario.frame_aligned]
  /\ length
       (image_buffer
          (snd (_capture_location
                  [ {| position := None; frames := Some 2 |};
                    {| position := None; frames := Some 1 |} ]
                  (Scenario.busy
                     (Scenario.link 80
                        (fun i => if (i =? 2)%nat
                                  then Some Scenario.frame_off_centre
                                  else Some Scenario.frame_aligned))))))
     = 3%nat.
Proof.
  refine (proj2 (proj2 (proj2 (proj2
            (capture_location_spec _
               (Scenario.busy
                  (Scenario.link 80
                     (fun i => if (i =? 2)%nat
                               then Some Scenario.frame_off_centre
                               else Some Scenario.frame_aligned)))))))
            {| position := None; frames := Some 2 |}
            {| position := None; frames := Some 1 |}
            Scenario.frame_aligned Scenario.frame_off_centre
            Scenario.frame_aligned
            eq_refl eq_refl eq_refl eq_refl eq_refl eq_refl eq_refl).
Defined.

(** ** The landing alignment *)

(** No adjustment for a frame that is aligned, that shows no home marker, or
    whose marker is not more than 50 px off centre. *)
Lemma adjust_quiet (b : bool) (al : option alignment_data) self :
  b = true \/ al = None
  \/ (exists a, al = Some a /\ (50 <? distance_from_center a)%float = false) ->
  adjust b al self = (Ok tt, self).
Proof.
  unfold adjust. intros [->|[->|(a & -> & H)]].
  - reflexivity.
  - now destruct b.
  - rewrite H. now destruct b.
Qed.

(** For a sample more than 50 px off centre, the translation is read; on a
    list of one row, its second entry is missing. *)
Lemma adjust_one_row (a : alignment_data) (row : object) self :
  (50 <? distance_from_center a)%float = true ->
  translation a = List [row] ->
  adjust false (Some a) self = (Raise IndexOutOfRange, self).
Proof. intros Hd Ht. unfold adjust. simpl. rewrite Hd, Ht. reflexivity. Qed.

Lemma adjust_of_frame (f : ndarray) self :
  adjust (fst (get_landing_alignment f)) (snd (get_landing_alignment f)) self
  = if off_centre f then (Raise IndexOutOfRange, self) else (Ok tt, self).
Proof.
  unfold off_centre.
  pose proof (translation_one_row f) as Hrow.
  destruct (get_landing_alignment f) as [b [a|]]; simpl in *.
  - destruct b; [now apply adjust_quiet; left|].
    destruct (50 <? distance_from_center a)%float eqn:Hd.
    + destruct (Hrow a eq_refl) as [row Ht]. now apply (adjust_one_row a row).
    + apply adjust_quiet. right. right. eauto.
  - destruct b; apply adjust_quiet; auto.
Qed.

(** A frame that is aligned is not off centre. *)
Lemma aligned_not_off_centre (f : ndarray) :
  fst (get_landing_alignment f) = true -> off_centre f = false.
Proof.
  unfold off_centre. destruct (get_landing_alignment f) as [[|] [a|]];
    simpl; congruence.
Qed.

Lemma align_round_frame self f :
  video (drone self) (frames_read (log self)) = Some f ->
  align_round self
  = if off_centre f
    then (Raise IndexOutOfRange, set_log (log self ++ [GetFrame]) self)
    else (Ok (fst (get_landing_alignment f)),
          set_log (log self ++ round_events) self).
Proof.
  intros Hv. unfold align_round. rewrite (bind_Ok get_frame _ self _ _ eq_refl).
  rewrite Hv.
  pose proof (adjust_of_frame f (set_log (log self ++ [GetFrame]) self)) as Ha.
  destruct (get_landing_alignment f) as [b al]. simpl in Ha.
  destruct (off_centre f).
  - now rewrite (bind_Raise _ _ _ _ _ Ha).
  - rewrite (bind_Ok _ _ _ _ _ Ha), (bind_Ok _ _ _ _ _ (sleep_one _)).
    unfold ret, round_events, set_log. simpl. now rewrite <- app_assoc.
Qed.

Lemma align_round_no_frame self :
  video (drone self) (frames_read (log self)) = None ->
  align_round self
  = (Raise LandingVideoUnavailable, set_log (log self ++ [GetFrame]) self).
Proof.
  intros Hv. unfold align_round, bind, get_frame. rewrite Hv. reflexivity.
Qed.

Lemma align_loop_aligned fuel att self :
  align_loop fuel true att self = (Ok true, self).
Proof. destruct fuel; reflexivity. Qed.

Lemma set_log_same self : set_log (log self ++ []) self = self.
Proof. destruct self. unfold set_log. simpl. now rewrite app_nil_r. Qed.

(** The loop, from [aligned = False], runs the rounds that [attempts]
    leaves. *)
Lemma align_loop_rounds fuel att self :
  0 <= att ->
  align_loop fuel false att self
  = (fst (align_rounds (drone self) (frames_read (log self))
            (Nat.min fuel (Z.to_nat (3 - att)))),
     set_log (log self
              ++ snd (align_rounds (drone self) (frames_read (log self))
                        (Nat.min fuel (Z.to_nat (3 - att))))) self).
Proof.
  revert att self. induction fuel as [|fuel IH]; intros att self Hatt.
  - simpl. now rewrite set_log_same.
  - simpl align_loop. destruct (att <? 3) eqn:Elt; simpl negb; simpl andb.
    + apply Z.ltb_lt in Elt.
      replace (Z.to_nat (3 - att)) with (S (Z.to_nat (3 - (att + 1)))) by lia.
      simpl Nat.min. simpl align_rounds.
      destruct (video (drone self) (frames_read (log self))) as [f|] eqn:Hv.
      * pose proof (align_round_frame self f Hv) as Er.
        pose proof (aligned_not_off_centre f) as Hno.
        destruct (fst (get_landing_alignment f)) eqn:Eb.
        -- rewrite (Hno eq_refl) in Er.
           rewrite (bind_Ok _ _ _ _ _ Er). now rewrite align_loop_aligned.
        -- destruct (off_centre f).
           ++ now rewrite (bind_Raise _ _ _ _ _ Er).
           ++ rewrite (bind_Ok _ _ _ _ _ Er), IH by lia. unfold set_log.
              cbn [drone log mission_in_progress current_mission image_buffer
                     fst snd].
              rewrite frames_read_app. unfold round_events at 1 3.
              cbn [frames_read].
              replace (frames_read (log self) + 1)%nat
                with (S (frames_read (log self))) by lia.
              now rewrite <- app_assoc.
      * now rewrite (bind_Raise _ _ _ _ _ (align_round_no_frame self Hv)).
    + apply Z.ltb_ge in Elt.
      replace (Z.to_nat (3 - att)) with O by lia.
      rewrite Nat.min_0_r. simpl. now rewrite set_log_same.
Qed.

Lemma rounds_events_S (i : nat) :
  rounds_events (S i) = round_events ++ rounds_events i.
Proof. reflexivity. Qed.

Lemma rounds_events_quiet (i : nat) :
  sent (rounds_events i) = [] /\ frames_read (rounds_events i) = i.
Proof.
  induction i as [|i [IHs IHf]]; [auto|].
  rewrite rounds_events_S, sent_app, frames_read_app, IHs, IHf. auto.
Qed.

(** The four ways in which the rounds end: a frame is evaluated as aligned,
    a frame is missing, a frame is off centre, or the rounds are used up. *)
Lemma align_rounds_cases link n k :
  let T := align_rounds link k n in
  (exists i, (i < n)%nat
     /\ aligned_at link (k + i)
     /\ (forall j, (j < i)%nat -> waiting_at link (k + j))
     /\ T = (Ok true, rounds_events (S i)))
  \/ (exists i, (i < n)%nat
        /\ video link (k + i) = None
        /\ (forall j, (j < i)%nat -> waiting_at link (k + j))
        /\ T = (Raise LandingVideoUnavailable, rounds_events i ++ [GetFrame]))
  \/ (exists i, (i < n)%nat
        /\ off_centre_at link (k + i)
        /\ (forall j, (j < i)%nat -> waiting_at link (k + j))
        /\ T = (Raise IndexOutOfRange, rounds_events i ++ [GetFrame]))
  \/ ((forall i, (i < n)%nat -> waiting_at link (k + i))
      /\ T = (Ok false, rounds_events n)).
Proof.
  revert k. induction n as [|n IH]; intros k T; subst T; cbn [align_rounds].
  - right. right. right. split; [lia | reflexivity].
  - destruct (video link k) as [f|] eqn:Hv.
    + destruct (fst (get_landing_alignment f)) eqn:Eb.
      * left. exists O. rewrite Nat.add_0_r.
        repeat split; [lia | exists f; auto | lia].
      * destruct (off_centre f) eqn:Eo.
        { right. right. left. exists O. rewrite Nat.add_0_r.
          repeat split; [lia | exists f; auto | lia]. }
        assert (Hshift : forall j P,
                  (forall j', (j' < P)%nat -> waiting_at link (S k + j')) ->
                  (j < S P)%nat -> waiting_at link (k + j)).
        { intros [|j] P HP Hj.
          - rewrite Nat.add_0_r. exists f. auto.
          - replace (k + S j)%nat with (S k + j)%nat by lia.
            apply HP. lia. }
        destruct (IH (S k)) as [(i & Hi & Ha & Hm & E)
                               |[(i & Hi & Hn & Hm & E)
                                |[(i & Hi & Ho & Hm & E)|(Hm & E)]]];
          rewrite E; cbn [fst snd].
        -- left. exists (S i).
           replace (k + S i)%nat with (S k + i)%nat by lia.
           repeat split; [lia | exact Ha |].
           intros j Hj. now apply (Hshift j i).
        -- right. left. exists (S i).
           replace (k + S i)%nat with (S k + i)%nat by lia.
           repeat split; [lia | exact Hn |].
           intros j Hj. now apply (Hshift j i).
        -- right. right. left. exists (S i).
           replace (k + S i)%nat with (S k + i)%nat by lia.
           repeat split; [lia | exact Ho |].
           intros j Hj. now apply (Hshift j i).
        -- right. right. right. split; [|reflexivity].
           intros j Hj. now apply (Hshift j n).
    + right. left. exists O.
      rewrite Nat.add_0_r. repeat split; [lia | exact Hv | lia].
Qed.

(** No round sends a command. *)
Lemma align_rounds_quiet link n k :
  sent (snd (align_rounds link k n)) = []
  /\ (frames_read (snd (align_rounds link k n)) <= n)%nat.
Proof.
  assert (Hq : forall i, sent (rounds_events i) = []
                         /\ frames_read (rounds_events i) = i)
    by apply rounds_events_quiet.
  destruct (align_rounds_cases link n k)
    as [(i & Hi & _ & _ & E)
       |[(i & Hi & _ & _ & E)|[(i & Hi & _ & _ & E)|(_ & E)]]];
    rewrite E; cbn [snd]; rewrite ?sent_app, ?frames_read_app;
    try destruct (Hq i) as [Hs Hf];
    try destruct (Hq (S i)) as [Hs' Hf'];
    destruct (Hq n) as [Hs'' Hf''];
    rewrite ?Hs, ?Hf, ?Hs', ?Hf', ?Hs'', ?Hf''; simpl; split; auto; lia.
Qed.

Lemma waiting_misaligned link i : waiting_at link i -> misaligned_at link i.
Proof. intros (f & Hf & Hb & _). exists f. auto. Qed.

Lemma aligned_not_waiting link i :
  aligned_at link i -> waiting_at link i -> False.
Proof. intros (f & Hf & Ha) (f' & Hf' & Hm & _). congruence. Qed.

Lemma missing_not_waiting link i :
  video link i = None -> waiting_at link i -> False.
Proof. intros Hn (f & Hf & _). congruence. Qed.

Lemma off_centre_not_waiting link i :
  off_centre_at link i -> waiting_at link i -> False.
Proof. intros (f & Hf & Ho) (f' & Hf' & _ & Hw). congruence. Qed.

Lemma missing_not_aligned link i :
  video link i = None -> aligned_at link i -> False.
Proof. intros Hn (f & Hf & _). congruence. Qed.

Lemma missing_not_off_centre link i :
  video link i = None -> off_centre_at link i -> False.
Proof. intros Hn (f & Hf & _). congruence. Qed.

Lemma aligned_not_off_centre_at link i :
  aligned_at link i -> off_centre_at link i -> False.
Proof.
  intros (f & Hf & Ha) (f' & Hf' & Ho).
  apply aligned_not_off_centre in Ha. congruence.
Qed.

(** Two facts about one frame of the video that exclude each other. *)
Ltac refute_frame :=
  match goal with
  | Ha : aligned_at ?l ?i, H : waiting_at ?l ?i |- _ =>
      destruct (aligned_not_waiting l i Ha H)
  | Hn : video ?l ?i = None, H : waiting_at ?l ?i |- _ =>
      destruct (missing_not_waiting l i Hn H)
  | Ho : off_centre_at ?l ?i, H : waiting_at ?l ?i |- _ =>
      destruct (off_centre_not_waiting l i Ho H)
  | Hn : video ?l ?i = None, H : aligned_at ?l ?i |- _ =>
      destruct (missing_not_aligned l i Hn H)
  | Hn : video ?l ?i = None, H : off_centre_at ?l ?i |- _ =>
      destruct (missing_not_off_centre l i Hn H)
  | Ha : aligned_at ?l ?i, H : off_centre_at ?l ?i |- _ =>
      destruct (aligned_not_off_centre_at l i Ha H)
  end.

Lemma first_round_unique link k i i' :
  (forall j, (j < i)%nat -> waiting_at link (k + j)) ->
  (forall j, (j < i')%nat -> waiting_at link (k + j)) ->
  ~ waiting_at link (k + i) ->
  ~ waiting_at link (k + i') ->
  i = i'.
Proof.
  intros Hm Hm' Hn Hn'.
  destruct (Nat.lt_trichotomy i i') as [H|[H|H]]; [|assumption|].
  - exfalso. apply Hn. now apply Hm'.
  - exfalso. apply Hn'. now apply Hm.
Qed.

(** The rounds end at the first frame that is aligned, missing or off
    centre. *)
Lemma align_rounds_outcome link n k :
  let T := align_rounds link k n in
  ((forall i, (i < n)%nat -> waiting_at link (k + i)) ->
   T = (Ok false, rounds_events n))
  /\ (forall i, (i < n)%nat -> aligned_at link (k + i) ->
      (forall j, (j < i)%nat -> waiting_at link (k + j)) ->
      T = (Ok true, rounds_events (S i)))
  /\ (forall i, (i < n)%nat -> video link (k + i) = None ->
      (forall j, (j < i)%nat -> waiting_at link (k + j)) ->
      T = (Raise LandingVideoUnavailable, rounds_events i ++ [GetFrame]))
  /\ (forall i, (i < n)%nat -> off_centre_at link (k + i) ->
      (forall j, (j < i)%nat -> waiting_at link (k + j)) ->
      T = (Raise IndexOutOfRange, rounds_events i ++ [GetFrame])).
Proof.
  intros T. subst T.
  destruct (align_rounds_cases link n k)
    as [(i0 & Hi0 & Ha0 & Hm0 & E)
       |[(i0 & Hi0 & Hn0 & Hm0 & E)
        |[(i0 & Hi0 & Ho0 & Hm0 & E)|(Hm0 & E)]]];
    rewrite E; (split; [|split; [|split]]);
    try (intros Hall; specialize (Hall i0 Hi0); refute_frame);
    try (intros i Hi H Hm; specialize (Hm0 i Hi); refute_frame);
    try exact (fun _ => eq_refl);
    intros i Hi H Hm;
    (assert (i = i0) as ->;
     [apply (first_round_unique link k); auto; intros Hw; refute_frame
     |first [reflexivity | refute_frame]]).
Qed.

(** [align_and_land], from the outcome of its three rounds. *)
Lemma align_and_land_rounds self :
  let T := align_rounds (drone self) (frames_read (log self)) 3 in
  align_and_land self
  = match fst T with
    | Ok true =>
        (if acks (drone self) (sent (log self)) "land"
         then Ok tt else Raise LandingCommandFailed,
         set_log (log self ++ snd T ++ [Send "land"]) self)
    | Ok false => (Raise AlignmentTimeout, set_log (log self ++ snd T) self)
    | Raise e => (Raise e, set_log (log self ++ snd T) self)
    | Pending => (Pending, set_log (log self ++ snd T) self)
    end.
Proof.
  intros T. unfold align_and_land.
  pose proof (align_loop_rounds 3 0 self (Z.le_refl 0)) as E.
  change (Nat.min 3 (Z.to_nat (3 - 0))) with 3%nat in E. fold T in E.
  destruct (align_rounds_quiet (drone self) 3 (frames_read (log self)))
    as [Hq _]. fold T in Hq.
  destruct (fst T) as [[|]|e|] eqn:ET.
  - rewrite (bind_Ok _ _ _ _ _ E). unfold bind, _send_command. simpl.
    rewrite <- app_assoc, sent_app, Hq, app_nil_r.
    destruct (acks (drone self) (sent (log self)) "land"); reflexivity.
  - now rewrite (bind_Ok _ _ _ _ _ E).
  - now rewrite (bind_Raise _ _ _ _ _ E).
  - now rewrite (bind_Pending _ _ _ _ E).
Qed.

(** The alignment ends: it never stays suspended. *)
Lemma align_rounds_end link n k : fst (align_rounds link k n) <> Pending.
Proof.
  destruct (align_rounds_cases link n k)
    as [(i & _ & _ & _ & E)
       |[(i & _ & _ & _ & E)|[(i & _ & _ & _ & E)|(_ & E)]]];
    rewrite E; discriminate.
Qed.

Lemma land_not_in_rounds (i : nat) (tail : list event) :
  sent tail = [] -> ~ In "land" (sent (rounds_events i ++ tail)).
Proof.
  intros Ht. rewrite sent_app, Ht, app_nil_r.
  destruct (rounds_events_quiet i) as [Hs _]. rewrite Hs. auto.
Qed.

(** C2, as the code has it: the alignment loop runs at most 3 rounds (the
    fuel of the model is enough for them) and always ends.  The land command
    is sent only after a round whose frame was evaluated as aligned, as the
    last event, and the frames of the rounds before it were evaluated as not
    aligned.  When a round finds the frame aligned after rounds that only
    waited, the land command follows.  When the 3 rounds each get a frame
    that is evaluated as not aligned and calls for no adjustment (the home
    marker is not seen, or not more than 50 px off centre), the alignment
    fails with AlignmentTimeout and no land command is sent; when a round
    gets no frame after such rounds, it fails with the video error of the
    landing, and no land command is sent either. *)
Theorem landing_alignment_bounded (self : DroneController) :
  let link := drone self in
  let k := frames_read (log self) in
  let evs := emitted align_and_land self in
  (frames_read evs <= 3)%nat
  /\ (forall fuel, (3 <= fuel)%nat ->
      align_loop fuel false 0 self = align_loop 3 false 0 self)
  /\ fst (align_and_land self) <> Pending
  /\ (In "land" (sent evs) ->
      exists i rounds,
        (i < 3)%nat
        /\ aligned_at link (k + i)
        /\ (forall j, (j < i)%nat -> misaligned_at link (k + j))
        /\ evs = rounds ++ [Send "land"]
        /\ frames_read rounds = S i
        /\ ~ In "land" (sent rounds))
  /\ (forall i, (i < 3)%nat -> aligned_at link (k + i) ->
      (forall j, (j < i)%nat -> waiting_at link (k + j)) ->
      In "land" (sent evs)
      /\ frames_read evs = S i
      /\ (fst (align_and_land self) = Ok tt
          \/ fst (align_and_land self) = Raise LandingCommandFailed))
  /\ ((forall i, (i < 3)%nat -> waiting_at link (k + i)) ->
      fst (align_and_land self) = Raise AlignmentTimeout
      /\ ~ In "land" (sent evs)
      /\ frames_read evs = 3%nat)
  /\ (forall i, (i < 3)%nat -> video link (k + i) = None ->
      (forall j, (j < i)%nat -> waiting_at link (k + j)) ->
      fst (align_and_land self) = Raise LandingVideoUnavailable
      /\ ~ In "land" (sent evs)
      /\ frames_read evs = S i).
Proof.
  intros link k evs. subst link k evs.
  pose proof (align_and_land_rounds self) as E. cbv zeta in E.
  pose proof (align_rounds_cases (drone self) 3 (frames_read (log self)))
    as Hcases.
  destruct (align_rounds_outcome (drone self) 3 (frames_read (log self)))
    as (Hnone & Hsome & Hmiss & _).
  destruct (align_rounds_quiet (drone self) 3 (frames_read (log self)))
    as [Hquiet Hbound].
  pose proof (align_rounds_end (drone self) 3 (frames_read (log self)))
    as Hend.
  cbv zeta in Hcases, Hnone, Hsome, Hmiss.
  set (T := align_rounds (drone self) (frames_read (log self)) 3) in *.
  assert (Hev : emitted align_and_land self
                = match fst T with
                  | Ok true => snd T ++ [Send "land"]
                  | _ => snd T
                  end).
  { apply emitted_app. rewrite E. destruct (fst T) as [[|]|e|]; reflexivity. }
  assert (Hf : forall i, frames_read (rounds_events i) = i)
    by (intros i; apply rounds_events_quiet).
  split; [|split; [|split; [|split; [|split; [|split]]]]].
  - rewrite Hev. destruct (fst T) as [[|]|e|]; try exact Hbound.
    rewrite frames_read_app. simpl. lia.
  - intros fuel Hfuel. rewrite !align_loop_rounds by lia.
    replace (Nat.min fuel (Z.to_nat (3 - 0))) with 3%nat by lia.
    reflexivity.
  - rewrite E. destruct (fst T) as [[|]|e|]; simpl; try discriminate.
    + destruct (acks _ _ _); discriminate.
    + now destruct Hend.
  - rewrite Hev. intros Hin.
    destruct Hcases as [(i & Hi & Ha & Hm & Hr)
                       |[(i & Hi & _ & _ & Hr)
                        |[(i & Hi & _ & _ & Hr)|(_ & Hr)]]];
      rewrite Hr in *; cbn [fst snd] in *;
      try (rewrite Hquiet in Hin; contradiction).
    exists i, (rounds_events (S i)).
    repeat split; auto using waiting_misaligned.
    rewrite Hquiet. auto.
  - intros i Hi Ha Hm. specialize (Hsome i Hi Ha Hm).
    rewrite Hev, E, Hsome. cbn [fst snd]. split; [|split].
    + rewrite sent_app. apply in_or_app. right. now left.
    + rewrite frames_read_app, Hf. simpl. lia.
    + destruct (acks (drone self) _ "land"); auto.
  - intros Hall. specialize (Hnone Hall).
    rewrite Hev, E, Hnone. cbn [fst snd].
    destruct (rounds_events_quiet 3) as [Hs _]. rewrite Hs, Hf. auto.
  - intros i Hi Hn Hm. specialize (Hmiss i Hi Hn Hm).
    rewrite Hev, E, Hmiss. cbn [fst snd].
    split; [reflexivity|]. split; [now apply land_not_in_rounds|].
    rewrite frames_read_app, Hf. simpl. lia.
Qed.

Lemma landing_alignment_bounded_witness :
  fst (align_and_land
         (Scenario.busy (Scenario.link 80 (fun _ => Some Scenario.frame_far_away))))
  = Raise AlignmentTimeout
  /\ ~ In "land"
       (sent (emitted align_and_land
                (Scenario.busy
                   (Scenario.link 80 (fun _ => Some Scenario.frame_far_away)))))
  /\ frames_read
       (emitted align_and_land
          (Scenario.busy
             (Scenario.link 80 (fun _ => Some Scenario.frame_far_away))))
     = 3%nat.
Proof.
  apply (proj1 (proj2 (proj2 (proj2 (proj2 (proj2
           (landing_alignment_bounded
              (Scenario.busy
                 (Scenario.link 80 (fun _ => Some Scenario.frame_far_away)))))))))).
  intros i Hi. exists Scenario.frame_far_away.
  split; [reflexivity|]. split; vm_compute; reflexivity.
Defined.

(** C2, as the claim has it, fails: on a mission to the roof whose video
    stops before the landing, no round evaluates a frame as aligned, and the
    mission fails with the video error of the landing, not with
    AlignmentTimeout. *)
Lemma alignment_without_frame :
  (forall i, ~ aligned_at Scenario.link_losing_video (4 + i))
  /\ fst (execute_mission Scenario.table 5%float "roof"
            (Scenario.idle Scenario.link_losing_video))
     = Raise (MissionExecutionError LandingVideoUnavailable)
  /\ fst (execute_mission Scenario.table 5%float "roof"
            (Scenario.idle Scenario.link_losing_video))
     <> Raise (MissionExecutionError AlignmentTimeout)
  /\ frames_read
       (log (snd (execute_mission Scenario.table 5%float "roof"
                    (Scenario.idle Scenario.link_losing_video))))
     = 5%nat.
Proof.
  split; [|split; [|split]].
  - intros i (f & Hf & _). simpl in Hf. discriminate.
  - vm_compute. reflexivity.
  - vm_compute. discriminate.
  - vm_compute. reflexivity.
Qed.

(** ** Corrective motion *)

Lemma off_centre_sample (f : ndarray) (a : alignment_data) :
  get_landing_alignment f = (false, Some a) ->
  off_centre f = (50 <? distance_from_center a)%float.
Proof. intros E. unfold off_centre. now rewrite E. Qed.

(** C1, as the code has it: corrective motion is attempted only for a
    sample that is more than 50 px off centre.  A round whose frame is
    evaluated as a sample that is not aligned and not more than 50 px off
    centre sends no command, whatever the translation of the sample: it reads
    the frame and waits one second; and a round that does anything else than
    that has got a sample that is not aligned and more than 50 px off centre,
    or no frame.  For three rounds that see the marker not aligned and not
    more than 50 px off centre, no command is sent, and the alignment fails
    with AlignmentTimeout. *)
Theorem corrective_motion (self : DroneController) :
  let k := frames_read (log self) in
  (forall f a,
     video (drone self) k = Some f ->
     get_landing_alignment f = (false, Some a) ->
     (50 <? distance_from_center a)%float = false ->
     align_round self
     = (Ok false, set_log (log self ++ [GetFrame; Sleep (PyInt 1)]) self))
  /\ (forall f,
        video (drone self) k = Some f ->
        emitted align_round self <> [GetFrame; Sleep (PyInt 1)] ->
        exists a,
          get_landing_alignment f = (false, Some a)
          /\ (50 <? distance_from_center a)%float = true)
  /\ ((forall i, (i < 3)%nat ->
         exists f a,
           video (drone self) (k + i) = Some f
           /\ get_landing_alignment f = (false, Some a)
           /\ (50 <? distance_from_center a)%float = false) ->
      emitted align_and_land self
      = [GetFrame; Sleep (PyInt 1); GetFrame; Sleep (PyInt 1);
         GetFrame; Sleep (PyInt 1)]
      /\ sent (emitted align_and_land self) = []
      /\ fst (align_and_land self) = Raise AlignmentTimeout).
Proof.
  intros k. subst k. split; [|split].
  - intros f a Hv E Hd. rewrite (align_round_frame self f Hv).
    rewrite (off_centre_sample f a E), Hd, E. reflexivity.
  - intros f Hv Hne. pose proof (align_round_frame self f Hv) as R.
    unfold off_centre in R.
    destruct (get_landing_alignment f) as [[|] [a|]] eqn:E;
      try (exfalso; apply Hne; apply emitted_app; now rewrite R).
    exists a. split; [reflexivity|].
    destruct (50 <? distance_from_center a)%float; [reflexivity|].
    exfalso. apply Hne. apply emitted_app. now rewrite R.
  - intros H.
    destruct (align_rounds_outcome (drone self) 3 (frames_read (log self)))
      as (Hnone & _).
    assert (Hw : forall i, (i < 3)%nat ->
                 waiting_at (drone self) (frames_read (log self) + i)).
    { intros i Hi. destruct (H i Hi) as (f & a & Hv & E & Hd).
      exists f. rewrite (off_centre_sample f a E), E. auto. }
    specialize (Hnone Hw).
    pose proof (align_and_land_rounds self) as E. cbv zeta in E.
    rewrite Hnone in E. cbn [fst snd] in E.
    rewrite (emitted_app align_and_land self _ (f_equal (fun x => log (snd x)) E)).
    rewrite E. auto.
Qed.

Lemma corrective_motion_witness :
  emitted align_and_land
    (Scenario.busy (Scenario.link 80 (fun _ => Some Scenario.frame_far_away)))
  = [GetFrame; Sleep (PyInt 1); GetFrame; Sleep (PyInt 1);
     GetFrame; Sleep (PyInt 1)]
  /\ sent (emitted align_and_land
             (Scenario.busy
                (Scenario.link 80 (fun _ => Some Scenario.frame_far_away))))
     = []
  /\ fst (align_and_land
            (Scenario.busy
               (Scenario.link 80 (fun _ => Some Scenario.frame_far_away))))
     = Raise AlignmentTimeout.
Proof.
  apply (proj2 (proj2 (corrective_motion
                  (Scenario.busy
                     (Scenario.link 80 (fun _ => Some Scenario.frame_far_away)))))).
  intros i Hi. eexists Scenario.frame_far_away, _.
  split; [reflexivity|]. split; vm_compute; reflexivity.
Defined.

(** C1, as the claim has it, fails: a marker that is seen 40 px off centre
    but far away gives a sample that is not aligned, with a translation of
    0.3 along x, beyond the trigger; no corrective command is sent for it, in
    none of the three rounds. *)
Lemma no_correction_near_centre :
  exists a m,
    get_landing_alignment Scenario.frame_far_away = (false, Some a)
    /\ distance_from_center a = 40%float
    /\ home_marker Scenario.frame_far_away = Some m
    /\ tvec m = (0.3, 0, 0)%float
    /\ (0.2 <? abs (x_of (tvec m)))%float = true
    /\ (0 <? x_of (tvec m))%float = true
    /\ emitted align_round
         (Scenario.busy (Scenario.link 80 (fun _ => Some Scenario.frame_far_away)))
       = [GetFrame; Sleep (PyInt 1)]
    /\ sent (emitted align_and_land
               (Scenario.busy
                  (Scenario.link 80 (fun _ => Some Scenario.frame_far_away))))
       = [].
Proof.
  eexists _, _. split; [vm_compute; reflexivity|].
  split; [vm_compute; reflexivity|].
  split; [vm_compute; reflexivity|].
  repeat split; vm_compute; reflexivity.
Qed.

(** ** Corrections and their acknowledgements *)

(** C10, at the failing input.  The landing frame shows the home marker
    60 px off centre, with a translation of 0.3 along x, and the link
    rejects the correction [right 20].  The translation that the sample
    holds is a list of one row, so reading its second entry raises
    IndexError: the round ends there, before any correction is sent, the loop
    does not go on to a next round, and the mission fails with that error,
    having sent no correction.  The acknowledgement of a correction is never
    looked at because no correction is ever sent. *)
Theorem correction_never_reached :
  let self :=
    Scenario.busy
      (Scenario.link_rejecting "right 20" 80
         (fun _ => Some Scenario.frame_off_centre)) in
  let mission :=
    execute_mission Scenario.table 5%float "roof"
      (Scenario.idle
         (Scenario.link_rejecting "right 20" 80
            (Scenario.video_then Scenario.frame_off_centre))) in
  (exists a m,
     get_landing_alignment Scenario.frame_off_centre = (false, Some a)
     /\ distance_from_center a = 60%float
     /\ home_marker Scenario.frame_off_centre = Some m
     /\ tvec m = (0.3, 0, 0)%float
     /\ translation a = List [List [Num 0.3; Num 0; Num 0]]
     /\ subscript (translation a) 0 = inr (List [Num 0.3; Num 0; Num 0])
     /\ subscript (translation a) 1 = inl IndexOutOfRange)
  /\ align_round self
     = (Raise IndexOutOfRange, set_log (log self ++ [GetFrame]) self)
  /\ align_loop 3 false 0 self
     = (Raise IndexOutOfRange, set_log (log self ++ [GetFrame]) self)
  /\ fst mission = Raise (MissionExecutionError IndexOutOfRange)
  /\ str_exn (MissionExecutionError IndexOutOfRange)
     = "Mission failed: list index out of range"
  /\ sent (log (snd mission))
     = ["takeoff"; "up 100"; "forward 200"; "back 150"]
  /\ frames_read (log (snd mission)) = 5%nat.
Proof.
  cbv zeta. split.
  - eexists _, _. split; [vm_compute; reflexivity|].
    repeat split; vm_compute; reflexivity.
  - repeat split; vm_compute; reflexivity.
Qed.

(** ** The legs of a mission *)

Lemma bind_Ok_inv {A B} (c : M A) (k : A -> M B) self b s' :
  bind c k self = (Ok b, s') ->
  exists a s1, c self = (Ok a, s1) /\ k a s1 = (Ok b, s').
Proof.
  unfold bind. destruct (c self) as [[a|e|] s1]; [eauto | discriminate..].
Qed.

Lemma takeoff_success_sent self s' :
  _takeoff_sequence self = (Ok tt, s') ->
  sent (log s') = sent (log self) ++ ["takeoff"; "up 100"].
Proof.
  unfold _takeoff_sequence, bind, get_battery, get_frame, _send_command.
  destruct (battery (drone self) <? 20); simpl; [discriminate|].
  destruct (video (drone self) _) as [f|]; simpl; [|discriminate].
  destruct (get_landing_alignment f) as [b [a|]]; simpl; [|discriminate].
  destruct (acks (drone self) _ "takeoff"); simpl; [|discriminate].
  change (int_of_float 100) with (@inr exn Z 100). simpl.
  destruct (acks (drone self) _ _); simpl; [|discriminate].
  intros [= <-]. simpl. rewrite !sent_app. simpl.
  rewrite !app_nil_r, <- app_assoc. reflexivity.
Qed.

(** In a path that completes, every command has a text. *)
Lemma execute_path_all_text (p : list MovementCommand) self s' :
  _execute_path p self = (Ok tt, s') ->
  length (path_text p) = length p.
Proof.
  revert self. induction p as [|cmd p IH]; intros self; [simpl; auto|].
  rewrite execute_path_cons. unfold path_text. simpl.
  destruct (command_of cmd) as [e|c]; simpl; [discriminate|].
  destruct (acks (drone self) (sent (log self)) c); simpl; [|discriminate].
  destruct (asyncio_sleep (delay_of cmd)) as [[]|e|]; try discriminate.
  intros H. apply IH in H. unfold path_text in H. now rewrite H.
Qed.

Lemma align_and_land_success self s' :
  align_and_land self = (Ok tt, s') ->
  sent (log s') = sent (log self) ++ ["land"].
Proof.
  rewrite align_and_land_rounds. cbv zeta.
  destruct (align_rounds_quiet (drone self) 3 (frames_read (log self)))
    as [Hq _].
  set (T := align_rounds (drone self) (frames_read (log self)) 3) in *.
  clearbody T.
  destruct (fst T) as [[|]|e|]; try discriminate.
  destruct (acks (drone self) _ "land"); [|discriminate].
  intros [= <-]. unfold set_log. cbn [log]. now rewrite !sent_app, Hq.
Qed.

Lemma return_home_success locations self s' :
  _return_home locations self = (Ok tt, s') ->
  exists home back,
    locations !! "home" = Some home
    /\ return_path home = Some back
    /\ length (path_text back) = length back
    /\ sent (log s') = sent (log self) ++ path_text back ++ ["land"].
Proof.
  unfold _return_home. intros H.
  apply bind_Ok_inv in H. destruct H as (home & s1 & Hh & H).
  destruct (locations !! "home") as [h|]; [|discriminate].
  injection Hh as -> ->.
  apply bind_Ok_inv in H. destruct H as (back & s1' & Hb & H).
  destruct (return_path home) as [b|] eqn:Eb; [|discriminate].
  injection Hb as -> ->.
  apply bind_Ok_inv in H. destruct H as ([] & s2 & Hp & H).
  apply align_and_land_success in H.
  exists home, back. rewrite H, (execute_path_sent _ _ _ Hp).
  rewrite (execute_path_all_text _ _ _ Hp), <- app_assoc. auto.
Qed.

Lemma flight_success locations d self s' :
  flight locations d self = (Ok tt, s') ->
  exists outbound home back,
    path d = Some outbound
    /\ locations !! "home" = Some home
    /\ return_path home = Some back
    /\ length (path_text outbound) = length outbound
    /\ length (path_text back) = length back
    /\ sent (log s')
       = sent (log self) ++ ["takeoff"; "up 100"] ++ path_text outbound
         ++ path_text (positions (default [] (capture_points d)))
         ++ path_text back ++ ["land"].
Proof.
  unfold flight. intros H.
  apply bind_Ok_inv in H. destruct H as ([] & s1 & Ht & H).
  apply bind_Ok_inv in H. destruct H as (outbound & s1' & Hg & H).
  destruct (path d) as [p|]; [|discriminate]. injection Hg as -> ->.
  apply bind_Ok_inv in H. destruct H as ([] & s2 & Hp & H).
  apply bind_Ok_inv in H. destruct H as ([] & s3 & Hc & H).
  apply return_home_success in H.
  destruct H as (home & back & Hh & Hb & Hlen & Hs).
  exists outbound, home, back.
  rewrite capture_location_unfold in Hc.
  destruct (capture_each_spec (default [] (capture_points d))
              (set_image_buffer [] s2)) as (_ & _ & Hok & _).
  rewrite Hc in Hok. destruct (Hok eq_refl) as [_ Hcs]. simpl in Hcs.
  rewrite Hs, Hcs, (execute_path_sent _ _ _ Hp), (takeoff_success_sent _ _ Ht).
  rewrite (execute_path_all_text _ _ _ Hp), <- !app_assoc. simpl. auto 10.
Qed.

(** The return leg depends on the table through the return path of its
    ["home"] entry only. *)
Lemma return_home_depends_on_home locations locations' self :
  return_path <$> (locations' !! "home") = return_path <$> (locations !! "home") ->
  _return_home locations' self = _return_home locations self.
Proof.
  unfold _return_home, bind.
  destruct (locations' !! "home") as [h'|], (locations !! "home") as [h|];
    simpl; intros H; try discriminate; [|reflexivity].
  injection H as ->. reflexivity.
Qed.

Lemma flight_depends_on locations locations' d d' self :
  path d' = path d ->
  capture_points d' = capture_points d ->
  return_path <$> (locations' !! "home") = return_path <$> (locations !! "home") ->
  flight locations' d' self = flight locations d self.
Proof.
  intros Hp Hc Hh. unfold flight. rewrite Hp, Hc.
  repeat (apply bind_ext_at; intros).
  now apply return_home_depends_on_home.
Qed.

(** C4, as the code has it: a mission to location L that completes has sent,
    in this order, the takeoff and ascent commands, the commands of the path
    of L's entry of the table, the repositioning commands of L's capture
    points, the commands of the return path of the entry ["home"] of the
    table, and the land command.  Every accepted mission to L, however it
    ends, depends on the table through the path and the capture points of
    L's entry and through the return path of the ["home"] entry only; so
    when L is not ["home"], the return path of L's entry plays no part: with
    any other return path under L, the mission is the same. *)
Theorem mission_legs locations now location_id d self :
  mission_in_progress self = false ->
  locations !! location_id = Some d ->
  is_empty d = false ->
  (forall m s',
     execute_mission locations now location_id self = (Ok m, s') ->
     exists outbound home back,
       path d = Some outbound
       /\ locations !! "home" = Some home
       /\ return_path home = Some back
       /\ length (path_text outbound) = length outbound
       /\ length (path_text back) = length back
       /\ sent (log s')
          = sent (log self) ++ ["takeoff"; "up 100"] ++ path_text outbound
            ++ path_text (positions (default [] (capture_points d)))
            ++ path_text back ++ ["land"])
  /\ (forall locations' d',
        locations' !! location_id = Some d' ->
        is_empty d' = false ->
        path d' = path d ->
        capture_points d' = capture_points d ->
        return_path <$> (locations' !! "home")
        = return_path <$> (locations !! "home") ->
        execute_mission locations' now location_id self
        = execute_mission locations now location_id self)
  /\ (location_id <> "home" ->
      forall back',
        is_empty (with_return_path back' d) = false ->
        execute_mission
          (<[location_id := with_return_path back' d]> locations)
          now location_id self
        = execute_mission locations now location_id self).
Proof.
  intros Hp Hl He.
  assert (Hdep : forall locations' d',
            locations' !! location_id = Some d' ->
            is_empty d' = false ->
            path d' = path d ->
            capture_points d' = capture_points d ->
            return_path <$> (locations' !! "home")
            = return_path <$> (locations !! "home") ->
            execute_mission locations' now location_id self
            = execute_mission locations now location_id self).
  { intros locations' d' Hl' He' Hpath Hcap Hhome.
    rewrite (execute_mission_outcome _ _ _ d self Hp Hl He).
    rewrite (execute_mission_outcome _ _ _ d' self Hp Hl' He').
    now rewrite (flight_depends_on locations locations' d d'). }
  split; [|split; [exact Hdep|]].
  - intros m s'. rewrite (execute_mission_outcome _ _ _ d self Hp Hl He).
    cbv zeta.
    destruct (flight locations d (accepted location_id now self))
      as [[[]|e|] s1] eqn:Ef; simpl; try discriminate.
    intros [= <- <-]. apply flight_success in Ef. exact Ef.
  - intros Hne back' He'.
    apply (Hdep _ (with_return_path back' d)); auto.
    + apply lookup_insert_eq.
    + now rewrite lookup_insert_ne.
Qed.

Lemma mission_legs_witness :
  sent (log (snd (execute_mission Scenario.table 5%float "roof"
                    (Scenario.idle
                       (Scenario.link 80 (fun _ => Some Scenario.frame_aligned))))))
  = ["takeoff"; "up 100"; "forward 200"; "back 150"; "land"]
  /\ execute_mission
       (<["roof" := with_return_path
                      (Some [Scenario.move "right" (PyInt 3)]) Scenario.roof]>
          Scenario.table)
       5%float "roof"
       (Scenario.idle (Scenario.link 80 (fun _ => Some Scenario.frame_aligned)))
     = execute_mission Scenario.table 5%float "roof"
         (Scenario.idle (Scenario.link 80 (fun _ => Some Scenario.frame_aligned))).
Proof.
  eassert (E : execute_mission Scenario.table 5%float "roof"
                 (Scenario.idle
                    (Scenario.link 80 (fun _ => Some Scenario.frame_aligned)))
               = (Ok _, _)) by (vm_compute; reflexivity).
  assert (Hl : Scenario.table !! "roof" = Some Scenario.roof)
    by (vm_compute; reflexivity).
  pose proof (mission_legs Scenario.table 5%float "roof" Scenario.roof
                (Scenario.idle
                   (Scenario.link 80 (fun _ => Some Scenario.frame_aligned)))
                eq_refl Hl eq_refl) as (Hlegs & _ & Hrest).
  split.
  - destruct (Hlegs _ _ E) as (outbound & home & back & Ho & Hh & Hb & _ & _ & Hs).
    rewrite E. injection Ho as <-. vm_compute in Hh. injection Hh as <-.
    injection Hb as <-. exact Hs.
  - apply Hrest; [discriminate | reflexivity].
Defined.

(** C4, as the claim has it, fails: the roof has a return path of its own,
    [left 1], but a mission to the roof that completes flies back along the
    return path of the ["home"] entry, [back 1.5]. *)
Lemma return_leg_from_home_entry :
  exists d m s',
    Scenario.table !! "roof" = Some d
    /\ return_path d = Some [Scenario.move "left" (PyInt 1)]
    /\ path_text [Scenario.move "left" (PyInt 1)] = ["left 100"]
    /\ execute_mission Scenario.table 5%float "roof"
         (Scenario.idle (Scenario.link 80 (fun _ => Some Scenario.frame_aligned)))
       = (Ok m, s')
    /\ sent (log s')
       = ["takeoff"; "up 100"; "forward 200"; "back 150"; "land"]
    /\ ~ In "left 100" (sent (log s')).
Proof.
  eexists _, _, _. split; [vm_compute; reflexivity|].
  split; [reflexivity|]. split; [reflexivity|].
  split; [vm_compute; reflexivity|].
  split; [reflexivity|].
  cbn [sent log]. intros [H|[H|[H|[H|[H|[]]]]]]; discriminate.
Qed.

(** * More properties of the controller *)

(** ** Paths, command by command *)

Lemma execute_path_app_at (p q : list MovementCommand) self :
  _execute_path (p ++ q) self
  = bind (_execute_path p) (fun _ => _execute_path q) self.
Proof.
  revert self. induction p as [|cmd p IH]; intros self; [reflexivity|].
  cbn [app _execute_path].
  rewrite bind_assoc_at. apply bind_ext_at. intros c s1.
  rewrite bind_assoc_at. apply bind_ext_at. intros ok s2.
  destruct ok; cbn [negb]; [|reflexivity].
  rewrite bind_assoc_at. apply bind_ext_at. intros [] s3. apply IH.
Qed.

(** X1: a path made of two parts runs the first part and then, when the
    first part completes, the second part from where the first left the
    controller; when the first part fails, the failure is the failure of the
    whole path and nothing of the second part runs. *)
Theorem execute_path_app (p q : list MovementCommand) self :
  (forall s1, _execute_path p self = (Ok tt, s1) ->
     _execute_path (p ++ q) self = _execute_path q s1)
  /\ (forall e s1, _execute_path p self = (Raise e, s1) ->
      _execute_path (p ++ q) self = (Raise e, s1)).
Proof.
  split.
  - intros s1 H. now rewrite execute_path_app_at, (bind_Ok _ _ _ _ _ H).
  - intros e s1 H. now rewrite execute_path_app_at, (bind_Raise _ _ _ _ _ H).
Qed.

Lemma execute_path_drone (p : list MovementCommand) self :
  drone (snd (_execute_path p self)) = drone self.
Proof. now destruct (steady_execute_path p self). Qed.

(** X2: a path fails fast.  When the commands before [cmd] have completed
    and the link rejects [cmd], the path fails with CommandRejected for the
    text of [cmd]; it has sent the commands before [cmd] and [cmd] itself,
    and none of the commands after it. *)
Theorem execute_path_fail_fast (pre rest : list MovementCommand)
    (cmd : MovementCommand) (c : string) self s1 :
  _execute_path pre self = (Ok tt, s1) ->
  command_of cmd = inr c ->
  acks (drone self) (sent (log self) ++ path_text pre) c = false ->
  _execute_path (pre ++ cmd :: rest) self
  = (Raise (CommandRejected c), set_log (log s1 ++ [Send c]) s1)
  /\ sent (log (snd (_execute_path (pre ++ cmd :: rest) self)))
     = sent (log self) ++ path_text pre ++ [c].
Proof.
  intros Hpre Hc Ha.
  pose proof (execute_path_sent pre self s1 Hpre) as Hs.
  pose proof (execute_path_drone pre self) as Hd. rewrite Hpre in Hd.
  simpl in Hd.
  assert (E : _execute_path (pre ++ cmd :: rest) self
              = (Raise (CommandRejected c), set_log (log s1 ++ [Send c]) s1)).
  { rewrite execute_path_app_at, (bind_Ok _ _ _ _ _ Hpre).
    apply execute_path_rejected; [exact Hc|]. now rewrite Hd, Hs. }
  split; [exact E|]. rewrite E. simpl.
  rewrite sent_app, Hs. simpl. now rewrite <- app_assoc.
Qed.

Lemma execute_path_fail_fast_witness :
  sent (log (snd (_execute_path
                    ([Scenario.move "forward" (PyInt 2)]
                     ++ Scenario.move "left" (PyFloat 0.5)
                        :: [Scenario.move "back" (PyInt 1)])
                    (Scenario.idle
                       {| battery := 80; video := fun _ => None;
                          acks := fun _ c => negb (String.eqb c "left 50") |}))))
  = [] ++ ["forward 200"] ++ ["left 50"].
Proof.
  eassert (E : _execute_path [Scenario.move "forward" (PyInt 2)]
                 (Scenario.idle
                    {| battery := 80; video := fun _ => None;
                       acks := fun _ c => negb (String.eqb c "left 50") |})
               = (Ok tt, _)) by (vm_compute; reflexivity).
  refine (proj2 (execute_path_fail_fast
                   [Scenario.move "forward" (PyInt 2)]
                   [Scenario.move "back" (PyInt 1)]
                   (Scenario.move "left" (PyFloat 0.5)) "left 50" _ _
                   E _ _)); vm_compute; reflexivity.
Defined.

Lemma execute_path_log (p : list MovementCommand) self s' :
  _execute_path p self = (Ok tt, s') ->
  s' = set_log (log self ++ path_events p) self.
Proof.
  revert self. induction p as [|cmd p IH]; intros self.
  - simpl. intros [= <-]. now rewrite set_log_same.
  - rewrite execute_path_cons. unfold path_events. simpl.
    destruct (command_of cmd) as [e|c]; simpl; [discriminate|].
    destruct (acks (drone self) (sent (log self)) c); simpl; [|discriminate].
    destruct (asyncio_sleep (delay_of cmd)) as [[]|e|]; try discriminate.
    intros H. apply IH in H. rewrite H. unfold set_log, path_events. simpl.
    rewrite <- !app_assoc. reflexivity.
Qed.

(** A command goes through: it has a text, and the sleep of its delay
    ends. *)
Lemma execute_path_completes (p : list MovementCommand) self :
  (forall h c, acks (drone self) h c = true) ->
  Forall (fun cmd => (exists c, command_of cmd = inr c)
                     /\ asyncio_sleep (delay_of cmd) = Ok tt) p ->
  fst (_execute_path p self) = Ok tt.
Proof.
  revert self. induction p as [|cmd p IH]; intros self Ha Hp; [reflexivity|].
  inversion Hp as [|? ? [[c Hc] Hs] Hp']; subst.
  rewrite execute_path_cons, Hc. simpl. rewrite Ha, Hs. apply IH; auto.
Qed.

(** A delay that is a finite float, or an integer that some float
    represents, gives a sleep that ends; an infinite delay gives a sleep that
    never ends. *)
Lemma asyncio_sleep_cases (n : number) :
  (forall f, n = PyFloat f -> is_finite f = true -> asyncio_sleep n = Ok tt)
  /\ (forall z, n = PyInt z -> is_finite (float_of_int z) = true ->
      asyncio_sleep n = Ok tt)
  /\ (n = PyFloat infinity -> asyncio_sleep n = Pending).
Proof.
  split; [|split].
  - intros f -> Hf. simpl. rewrite Hf. now destruct (f <=? 0)%float.
  - intros z -> Hz. simpl. unfold float_of_int_checked. rewrite Hz.
    now destruct (z <=? 0).
  - intros ->. reflexivity.
Qed.

(** X3: a path that completes has logged, for each of its commands in order,
    the command and then its settle delay (2 s when the command gives none),
    and has changed nothing else.  Under a link that acknowledges every
    command, a path completes when each of its commands has a text and a
    delay whose sleep ends, as it does for a finite float and for an integer
    that a float represents.  A sleep does not end for an infinite delay:
    after the commands before it have completed, a command with such a delay
    is sent and acknowledged, and the path then stays suspended for ever,
    with none of the later commands sent. *)
Theorem execute_path_trace (p : list MovementCommand) self :
  (forall s', _execute_path p self = (Ok tt, s') ->
     s' = set_log (log self ++ path_events p) self)
  /\ ((forall h c, acks (drone self) h c = true) ->
      Forall (fun cmd =>
                (exists c, command_of cmd = inr c)
                /\ ((exists f, delay_of cmd = PyFloat f /\ is_finite f = true)
                    \/ (exists z, delay_of cmd = PyInt z
                          /\ is_finite (float_of_int z) = true))) p ->
      _execute_path p self = (Ok tt, set_log (log self ++ path_events p) self))
  /\ (forall pre cmd rest c s1,
        p = pre ++ cmd :: rest ->
        _execute_path pre self = (Ok tt, s1) ->
        command_of cmd = inr c ->
        acks (drone s1) (sent (log s1)) c = true ->
        delay cmd = Some (PyFloat infinity) ->
        _execute_path p self
        = (Pending,
           set_log (log s1 ++ [Send c; Sleep (PyFloat infinity)]) s1)).
Proof.
  split; [apply execute_path_log|]. split.
  - intros Ha Hp.
    assert (H : fst (_execute_path p self) = Ok tt).
    { apply execute_path_completes; [exact Ha|].
      eapply List.Forall_impl; [|exact Hp].
      intros cmd [Hc Hd]. split; [exact Hc|].
      destruct (asyncio_sleep_cases (delay_of cmd)) as (Hf & Hz & _).
      destruct Hd as [(f & E & Hfin)|(z & E & Hfin)]; eauto. }
    destruct (_execute_path p self) as [r s'] eqn:E. simpl in H. subst r.
    now rewrite (execute_path_log p self s' E).
  - intros pre cmd rest c s1 -> Hpre Hc Ha Hd.
    rewrite execute_path_app_at, (bind_Ok _ _ _ _ _ Hpre).
    rewrite execute_path_cons, Hc. unfold delay_of. rewrite Hd, Ha. simpl.
    unfold set_log. simpl. now rewrite <- app_assoc.
Qed.

Lemma execute_path_trace_witness :
  _execute_path
    ([Scenario.move "forward" (PyInt 2)]
     ++ {| direction := "left"; distance := PyInt 1;
           delay := Some (PyFloat infinity) |}
        :: [Scenario.move "back" (PyInt 1)])
    (Scenario.idle (Scenario.link 80 (fun _ => None)))
  = (Pending,
     set_log ([Send "forward 200"; Sleep (PyInt 2)]
              ++ [Send "left 100"; Sleep (PyFloat infinity)])
       (Scenario.idle (Scenario.link 80 (fun _ => None)))).
Proof.
  exact (proj2 (proj2 (execute_path_trace _
                         (Scenario.idle (Scenario.link 80 (fun _ => None)))))
           [Scenario.move "forward" (PyInt 2)]
           {| direction := "left"; distance := PyInt 1;
              delay := Some (PyFloat infinity) |}
           [Scenario.move "back" (PyInt 1)] "left 100"
           (set_log [Send "forward 200"; Sleep (PyInt 2)]
              (Scenario.idle (Scenario.link 80 (fun _ => None))))
           eq_refl eq_refl eq_refl eq_refl eq_refl).
Defined.

(** ** Distances that are not finite numbers *)

Lemma times_100_not_finite (f : float) :
  (is_NaN f -> is_NaN (f * 100)%float)
  /\ (is_infinite f -> is_infinite (f * 100)%float).
Proof.
  unfold is_NaN, is_infinite. split.
  - intros H. rewrite mul_spec, H. reflexivity.
  - intros [s H]. rewrite mul_spec, H. exists s. destruct s; reflexivity.
Qed.

Lemma command_of_not_finite (cmd : MovementCommand) (f : float) :
  distance cmd = PyFloat f ->
  (is_NaN f ->
   command_of cmd
   = inl (Exception ValueError "cannot convert float NaN to integer" None))
  /\ (is_infinite f ->
      command_of cmd
      = inl (Exception OverflowError
               "cannot convert float infinity to integer" None)).
Proof.
  intros Hd. unfold command_of. rewrite Hd. simpl. unfold int_of_float.
  destruct (times_100_not_finite f) as [Hn Hi]. split.
  - intros H. apply Hn in H. unfold is_NaN in H. now rewrite H.
  - intros H. apply Hi in H. destruct H as [s H]. now rewrite H.
Qed.

(** X4: a command whose distance is not a finite number stops the path
    before it is sent: after the commands before it have completed, the path
    raises ValueError for a NaN distance and OverflowError for an infinite
    one, and the controller is as those commands left it. *)
Theorem execute_path_not_finite (pre rest : list MovementCommand)
    (cmd : MovementCommand) (f : float) self s1 :
  _execute_path pre self = (Ok tt, s1) ->
  distance cmd = PyFloat f ->
  (is_NaN f ->
   _execute_path (pre ++ cmd :: rest) self
   = (Raise (Exception ValueError "cannot convert float NaN to integer" None),
      s1))
  /\ (is_infinite f ->
      _execute_path (pre ++ cmd :: rest) self
      = (Raise (Exception OverflowError
                  "cannot convert float infinity to integer" None), s1)).
Proof.
  intros Hpre Hd. destruct (command_of_not_finite cmd f Hd) as [Hn Hi].
  split; intros H; rewrite execute_path_app_at, (bind_Ok _ _ _ _ _ Hpre);
    simpl; unfold bind, lift; [rewrite (Hn H) | rewrite (Hi H)]; reflexivity.
Qed.

Lemma execute_path_not_finite_witness :
  _execute_path ([] ++ Scenario.move "forward" (PyFloat nan)
                    :: [Scenario.move "back" (PyInt 1)])
    (Scenario.idle (Scenario.link 80 (fun _ => None)))
  = (Raise (Exception ValueError "cannot convert float NaN to integer" None),
     Scenario.idle (Scenario.link 80 (fun _ => None))).
Proof.
  apply (proj1 (execute_path_not_finite [] [Scenario.move "back" (PyInt 1)]
                  (Scenario.move "forward" (PyFloat nan)) nan
                  (Scenario.idle (Scenario.link 80 (fun _ => None)))
                  (Scenario.idle (Scenario.link 80 (fun _ => None)))
                  eq_refl eq_refl)).
  reflexivity.
Defined.

(** ** What is sent, step by step *)

Lemma sends_ret P {A} (a : A) : sends P (ret a).
Proof. intros self. exists []. simpl. now rewrite app_nil_r. Qed.

Lemma sends_raise P {A} (e : exn) : sends P (@raise A e).
Proof. intros self. exists []. simpl. now rewrite app_nil_r. Qed.

Lemma sends_bind P {A B} (c : M A) (k : A -> M B) :
  sends P c -> (forall a, sends P (k a)) -> sends P (bind c k).
Proof.
  intros Hc Hk self. unfold bind.
  destruct (Hc self) as (cs & Hs & HP).
  destruct (c self) as [[a|e|] s1]; simpl in *.
  - destruct (Hk a s1) as (cs' & Hs' & HP').
    exists (cs ++ cs'). rewrite Hs', Hs, <- app_assoc. split; [reflexivity|].
    apply Forall_app. auto.
  - exists cs. auto.
  - exists cs. auto.
Qed.

Lemma sends_quiet P {A} (c : M A) :
  (forall self, sent (log (snd (c self))) = sent (log self)) -> sends P c.
Proof. intros H self. exists []. now rewrite H, app_nil_r. Qed.

Lemma sends_get_battery P : sends P get_battery.
Proof.
  apply sends_quiet. intros self. simpl. rewrite sent_app. apply app_nil_r.
Qed.

Lemma sends_get_frame P : sends P get_frame.
Proof.
  apply sends_quiet. intros self. simpl. rewrite sent_app. apply app_nil_r.
Qed.

Lemma sends_send_command (P : string -> Prop) (c : string) :
  P c -> sends P (_send_command c).
Proof.
  intros HP self. exists [c]. simpl. rewrite sent_app. auto.
Qed.

Lemma sends_modify_buffer P (f : DroneController -> list ndarray) :
  sends P (modify (fun self => set_image_buffer (f self) self)).
Proof. apply sends_quiet. reflexivity. Qed.

Lemma sends_lift P {A} (r : exn + A) : sends P (lift r).
Proof. destruct r; [apply sends_raise | apply sends_ret]. Qed.

Lemma sends_getitem P {A} (key : string) (o : option A) :
  sends P (getitem key o).
Proof. destruct o; [apply sends_ret | apply sends_raise]. Qed.

Lemma sends_sleep P (n : number) : sends P (sleep n).
Proof.
  apply sends_quiet. intros self. unfold sleep.
  destruct (asyncio_sleep n); simpl; rewrite ?sent_app; simpl;
    auto using app_nil_r.
Qed.

(** The text of a movement command holds a space, so it is not [land]. *)
Lemma command_text_not_land (d x : string) : not_land (d +:+ " " +:+ x).
Proof.
  unfold not_land.
  destruct d as [|a1 [|a2 [|a3 [|a4 [|a5 d]]]]]; simpl; discriminate.
Qed.

Lemma command_of_not_land (cmd : MovementCommand) (c : string) :
  command_of cmd = inr c -> not_land c.
Proof.
  unfold command_of. destruct (int (times_100 (distance cmd))); [discriminate|].
  intros [= <-]. apply command_text_not_land.
Qed.

Ltac sends_step :=
  match goal with
  | |- sends _ (bind _ _) => apply sends_bind; [|intros]
  | |- sends _ (match ?x with _ => _ end) => destruct x
  | |- sends _ (failure _) => apply sends_raise
  | |- sends _ (ret _) => apply sends_ret
  | |- sends _ (sleep _) => apply sends_sleep
  | |- sends _ get_battery => apply sends_get_battery
  | |- sends _ get_frame => apply sends_get_frame
  | |- sends _ (lift _) => apply sends_lift
  | |- sends _ (getitem _ _) => apply sends_getitem
  | |- sends _ (modify (set_image_buffer _)) =>
      apply (sends_modify_buffer _ (fun _ => _))
  | |- sends _ (modify _) => apply sends_modify_buffer
  end.

Lemma sends_takeoff_sequence : sends not_land _takeoff_sequence.
Proof.
  unfold _takeoff_sequence.
  repeat first [sends_step | apply sends_send_command; discriminate
               | apply sends_send_command; apply command_text_not_land].
Qed.

Lemma sends_execute_path (p : list MovementCommand) :
  sends not_land (_execute_path p).
Proof.
  induction p as [|cmd p IH]; simpl; [apply sends_ret|].
  destruct (command_of cmd) as [e|c] eqn:Ec.
  - intros self. exists []. simpl. now rewrite app_nil_r.
  - intros self. apply (sends_bind not_land (_send_command c)).
    + apply sends_send_command. now apply (command_of_not_land cmd).
    + intros ok. destruct ok; simpl; repeat sends_step. exact IH.
Qed.

Lemma sends_capture_frames (n : nat) : sends not_land (capture_frames n).
Proof.
  induction n as [|n IH]; simpl; [apply sends_ret|].
  repeat sends_step; exact IH.
Qed.

Lemma sends_capture_location (pts : list CapturePoint) :
  sends not_land (_capture_location pts).
Proof.
  unfold _capture_location. apply sends_bind; [apply sends_modify_buffer|].
  intros _. induction pts as [|pt pts IH]; simpl; [apply sends_ret|].
  apply sends_bind.
  - unfold reposition. destruct (position pt);
      [apply sends_execute_path | apply sends_ret].
  - intros _. apply sends_bind; [apply sends_capture_frames | intros _; exact IH].
Qed.

Lemma sends_approach locations d : sends not_land (approach locations d).
Proof.
  unfold approach.
  repeat first [sends_step | apply sends_takeoff_sequence
               | apply sends_execute_path | apply sends_capture_location].
Qed.

Lemma flight_approach locations d self :
  flight locations d self
  = bind (approach locations d) (fun _ => align_and_land) self.
Proof.
  unfold flight, approach, _return_home.
  repeat (rewrite bind_assoc_at; apply bind_ext_at; intros).
  reflexivity.
Qed.

(** What the alignment and the landing send, outcome by outcome. *)
Lemma align_and_land_sent self :
  (sent (log (snd (align_and_land self))) = sent (log self) ++ ["land"]
   /\ (fst (align_and_land self) = Ok tt
       \/ fst (align_and_land self) = Raise LandingCommandFailed))
  \/ (sent (log (snd (align_and_land self))) = sent (log self)
      /\ exists e, fst (align_and_land self) = Raise e).
Proof.
  pose proof (align_and_land_rounds self) as E. cbv zeta in E.
  destruct (align_rounds_quiet (drone self) 3 (frames_read (log self)))
    as [Hq _].
  pose proof (align_rounds_end (drone self) 3 (frames_read (log self)))
    as Hend.
  set (T := align_rounds (drone self) (frames_read (log self)) 3) in *.
  clearbody T. rewrite E.
  destruct (fst T) as [[|]|e|]; unfold set_log; cbn [fst snd log];
    rewrite !sent_app, Hq, ?app_nil_r.
  - left. destruct (acks _ _ _); auto.
  - right. eauto.
  - right. eauto.
  - now destruct Hend.
Qed.

(** X5: the land command comes last or not at all.  In every accepted
    mission the commands sent are commands other than land, followed by at
    most one land command; a mission that completes has sent land as its
    last command, and a mission that fails has sent land only when the
    failure is the rejection of the land command itself: no failure makes
    the controller land the drone.  A mission that stays suspended in a
    sleep has not sent it either. *)
Theorem land_comes_last locations now location_id d self :
  mission_in_progress self = false ->
  locations !! location_id = Some d ->
  is_empty d = false ->
  exists cs,
    Forall not_land cs
    /\ ((sent (log (snd (execute_mission locations now location_id self)))
         = sent (log self) ++ cs ++ ["land"]
         /\ ((exists m, fst (execute_mission locations now location_id self) = Ok m)
             \/ fst (execute_mission locations now location_id self)
                = Raise (MissionExecutionError LandingCommandFailed)))
        \/ (sent (log (snd (execute_mission locations now location_id self)))
            = sent (log self) ++ cs
            /\ ((exists e,
                   fst (execute_mission locations now location_id self)
                   = Raise (MissionExecutionError e))
                \/ fst (execute_mission locations now location_id self)
                   = Pending))).
Proof.
  intros Hp Hl He. rewrite (execute_mission_outcome _ _ _ d self Hp Hl He).
  cbv zeta. rewrite flight_approach. unfold bind.
  destruct (sends_approach locations d (accepted location_id now self))
    as (cs1 & Hs1 & Hn1).
  change (sent (log (accepted location_id now self))) with (sent (log self))
    in Hs1.
  exists cs1. split; [exact Hn1|].
  destruct (approach locations d (accepted location_id now self))
    as [[[]|e|] s1]; simpl in Hs1.
  - pose proof (align_and_land_sent s1) as Hcases.
    destruct (align_and_land s1) as [r s2]. simpl in Hcases.
    destruct Hcases as [[Hs [Hr|Hr]]|[Hs [e Hr]]]; subst r; simpl;
      rewrite Hs, Hs1, <- ?app_assoc; eauto 6.
  - right. simpl. eauto.
  - right. simpl. eauto.
Qed.

Lemma land_comes_last_witness :
  exists cs,
    Forall not_land cs
    /\ ((sent (log (snd (execute_mission Scenario.table 5%float "roof"
                           (Scenario.idle Scenario.link_losing_video))))
         = sent (log (Scenario.idle Scenario.link_losing_video)) ++ cs ++ ["land"]
         /\ ((exists m, fst (execute_mission Scenario.table 5%float "roof"
                               (Scenario.idle Scenario.link_losing_video)) = Ok m)
             \/ fst (execute_mission Scenario.table 5%float "roof"
                       (Scenario.idle Scenario.link_losing_video))
                = Raise (MissionExecutionError LandingCommandFailed)))
        \/ (sent (log (snd (execute_mission Scenario.table 5%float "roof"
                              (Scenario.idle Scenario.link_losing_video))))
            = sent (log (Scenario.idle Scenario.link_losing_video)) ++ cs
            /\ ((exists e,
                   fst (execute_mission Scenario.table 5%float "roof"
                          (Scenario.idle Scenario.link_losing_video))
                   = Raise (MissionExecutionError e))
                \/ fst (execute_mission Scenario.table 5%float "roof"
                          (Scenario.idle Scenario.link_losing_video))
                   = Pending))).
Proof.
  eassert (Hl : Scenario.table !! "roof" = Some _) by (vm_compute; reflexivity).
  exact (land_comes_last Scenario.table 5%float "roof" _
           (Scenario.idle Scenario.link_losing_video) eq_refl Hl eq_refl).
Defined.

Lemma takeoff_sent_cases self :
  (fst (_takeoff_sequence self) = Ok tt
   /\ sent (log (snd (_takeoff_sequence self)))
      = sent (log self) ++ ["takeoff"; "up 100"])
  \/ ((exists e, fst (_takeoff_sequence self) = Raise e)
      /\ (sent (log (snd (_takeoff_sequence self))) = sent (log self) ++ []
          \/ sent (log (snd (_takeoff_sequence self)))
             = sent (log self) ++ ["takeoff"]
          \/ sent (log (snd (_takeoff_sequence self)))
             = sent (log self) ++ ["takeoff"; "up 100"])).
Proof.
  unfold _takeoff_sequence, bind, get_battery, get_frame, _send_command.
  destruct (battery (drone self) <? 20); simpl.
  { right. rewrite sent_app. simpl. eauto. }
  destruct (video (drone self) _) as [f|]; simpl.
  2:{ right. rewrite !sent_app. simpl. rewrite !app_nil_r. eauto. }
  destruct (get_landing_alignment f) as [b [a|]]; simpl.
  2:{ right. rewrite !sent_app. simpl. rewrite !app_nil_r. eauto. }
  destruct (acks (drone self) _ "takeoff"); simpl.
  2:{ right. rewrite !sent_app. simpl. rewrite !app_nil_r. eauto. }
  change (int_of_float 100) with (@inr exn Z 100). simpl.
  destruct (acks (drone self) _ _); simpl.
  - left. rewrite !sent_app. simpl. rewrite !app_nil_r, <- app_assoc. auto.
  - right. rewrite !sent_app. simpl. rewrite !app_nil_r, <- app_assoc. eauto.
Qed.

(** X6: no command before takeoff.  The commands that an accepted mission
    sends are none, or the takeoff command alone, or the takeoff command,
    then the ascent to the takeoff height, then the rest. *)
Theorem takeoff_comes_first locations now location_id d self :
  mission_in_progress self = false ->
  locations !! location_id = Some d ->
  is_empty d = false ->
  exists cs,
    sent (log (snd (execute_mission locations now location_id self)))
    = sent (log self) ++ cs
    /\ (cs = [] \/ cs = ["takeoff"]
        \/ exists rest, cs = "takeoff" :: "up 100" :: rest).
Proof.
  intros Hp Hl He. rewrite (execute_mission_outcome _ _ _ d self Hp Hl He).
  cbv zeta. unfold flight.
  set (rest := fun _ : unit =>
         (path_commands <- getitem "path" (path d) ;;
          _execute_path path_commands ;;;
          _capture_location (default [] (capture_points d)) ;;;
          _return_home locations)).
  assert (Hrest : steady (rest tt)).
  { subst rest. cbv beta. repeat steady_step;
      auto using steady_execute_path, steady_capture_location,
        steady_return_home. }
  destruct (takeoff_sent_cases (accepted location_id now self))
    as [[Hr Hs]|[[e Hr] Hs]];
    change (sent (log (accepted location_id now self))) with (sent (log self))
      in Hs;
    destruct (_takeoff_sequence (accepted location_id now self))
      as [r s1] eqn:Etk; simpl in Hr, Hs; subst r.
  - rewrite (bind_Ok _ _ _ _ _ Etk).
    destruct (Hrest s1) as (_ & _ & _ & evs & Hlog).
    destruct (rest tt s1) as [[[]|e|] s2]; simpl in Hlog |- *;
      rewrite Hlog, sent_app, Hs, <- app_assoc;
      eexists; (split; [reflexivity|]); right; right; simpl; eauto.
  - rewrite (bind_Raise _ _ _ _ _ Etk). simpl.
    destruct Hs as [Hs|[Hs|Hs]]; rewrite Hs;
      eexists; (split; [reflexivity|]); eauto.
Qed.

Lemma takeoff_comes_first_witness :
  exists cs,
    sent (log (snd (execute_mission Scenario.table 5%float "roof"
                      (Scenario.idle Scenario.link_losing_video))))
    = sent (log (Scenario.idle Scenario.link_losing_video)) ++ cs
    /\ (cs = [] \/ cs = ["takeoff"]
        \/ exists rest, cs = "takeoff" :: "up 100" :: rest).
Proof.
  eassert (Hl : Scenario.table !! "roof" = Some _) by (vm_compute; reflexivity).
  exact (takeoff_comes_first Scenario.table 5%float "roof" _
           (Scenario.idle Scenario.link_losing_video) eq_refl Hl eq_refl).
Defined.

(** ** Rounds that send nothing *)

Lemma unseen_not_off_centre (f : ndarray) :
  ~ home_marker_detected f -> off_centre f = false.
Proof.
  intros H. unfold off_centre.
  now rewrite (get_landing_alignment_undetected f H).
Qed.

(** X7: a round whose frame does not show the home marker, or whose frame is
    evaluated as aligned, sends no command: the controller waits one second
    and goes on.  A frame without the home marker counts as not aligned. *)
Theorem round_without_correction self (f : ndarray) :
  video (drone self) (frames_read (log self)) = Some f ->
  ~ home_marker_detected f \/ fst (get_landing_alignment f) = true ->
  align_round self
  = (Ok (fst (get_landing_alignment f)),
     set_log (log self ++ [GetFrame; Sleep (PyInt 1)]) self)
  /\ (~ home_marker_detected f -> fst (get_landing_alignment f) = false).
Proof.
  intros Hv H. split.
  - rewrite (align_round_frame self f Hv).
    destruct H as [H|H];
      [rewrite (unseen_not_off_centre f H)
      |rewrite (aligned_not_off_centre f H)]; reflexivity.
  - intros Hn. now rewrite (get_landing_alignment_undetected f Hn).
Qed.

Lemma round_without_correction_witness :
  align_round
    (Scenario.busy (Scenario.link 80 (fun _ => Some Scenario.frame_without_home)))
  = (Ok false,
     set_log
       ([GetBattery; GetFrame; Send "takeoff"] ++ [GetFrame; Sleep (PyInt 1)])
       (Scenario.busy
          (Scenario.link 80 (fun _ => Some Scenario.frame_without_home)))).
Proof.
  refine (proj1 (round_without_correction
                   (Scenario.busy
                      (Scenario.link 80 (fun _ => Some Scenario.frame_without_home)))
                   Scenario.frame_without_home eq_refl _)).
  left. vm_compute. intros [H|[]]. discriminate.
Defined.

(** ** The translation of a sample *)

(** X8: the alignment never sends a correction.  The translation that
    [get_landing_alignment] stores is a list of one row of three numbers, so
    its first entry is that row and it has no second entry.  A round whose
    frame gives a sample that is not aligned and more than 50 px off centre
    reads both: it raises IndexError after it has read the frame, with
    nothing sent and without the wait of one second, and the alignment ends
    with that error.  So a round sends no command at all, and the alignment
    sends nothing, or the land command alone. *)
Theorem correction_never_sent self :
  (forall f a,
     snd (get_landing_alignment f) = Some a ->
     exists x y z,
       translation a = List [List [Num x; Num y; Num z]]
       /\ subscript (translation a) 0 = inr (List [Num x; Num y; Num z])
       /\ subscript (translation a) 1 = inl IndexOutOfRange)
  /\ (forall f a,
        video (drone self) (frames_read (log self)) = Some f ->
        get_landing_alignment f = (false, Some a) ->
        (50 <? distance_from_center a)%float = true ->
        align_round self
        = (Raise IndexOutOfRange, set_log (log self ++ [GetFrame]) self)
        /\ align_and_land self
           = (Raise IndexOutOfRange, set_log (log self ++ [GetFrame]) self))
  /\ sent (emitted align_round self) = []
  /\ (sent (emitted align_and_land self) = []
      \/ sent (emitted align_and_land self) = ["land"]).
Proof.
  split; [|split; [|split]].
  - intros f a H.
    destruct (in_dec Z.eq_dec settings.HOME_MARKER_ID
                (fst (detect_markers f))) as [Hin|Hn].
    + destruct (find_home_In _ _ Hin) as [[i m] Hf].
      rewrite (get_landing_alignment_detected f m Hin) in H
        by (unfold home_marker; now rewrite Hf).
      injection H as <-. simpl. destruct (tvec m) as [[x y] z].
      exists x, y, z. auto.
    + rewrite (get_landing_alignment_undetected f Hn) in H. discriminate.
  - intros f a Hv E Hd.
    assert (Ho : off_centre f = true) by now rewrite (off_centre_sample f a E).
    split.
    + now rewrite (align_round_frame self f Hv), Ho.
    + destruct (align_rounds_outcome (drone self) 3 (frames_read (log self)))
        as (_ & _ & _ & Hoff).
      specialize (Hoff O ltac:(lia)). rewrite Nat.add_0_r in Hoff.
      rewrite align_and_land_rounds. cbv zeta.
      rewrite Hoff; [reflexivity | exists f; auto | intros j Hj; lia].
  - destruct (video (drone self) (frames_read (log self))) as [f|] eqn:Hv.
    + pose proof (align_round_frame self f Hv) as E.
      destruct (off_centre f).
      * now rewrite (emitted_app align_round self [GetFrame]) by (now rewrite E).
      * now rewrite (emitted_app align_round self round_events)
          by (now rewrite E).
    + pose proof (align_round_no_frame self Hv) as E.
      now rewrite (emitted_app align_round self [GetFrame]) by (now rewrite E).
  - destruct (steady_align_and_land self) as (_ & _ & _ & evs & Hlog).
    rewrite (emitted_app align_and_land self evs Hlog).
    pose proof (align_and_land_sent self) as Hsent.
    rewrite Hlog, sent_app in Hsent.
    destruct Hsent as [[Hs _]|[Hs _]].
    + right. now apply app_inv_head in Hs.
    + left. rewrite <- (app_nil_r (sent (log self))) in Hs at 2.
      now apply app_inv_head in Hs.
Qed.

(** ** The mission record after a call *)

Lemma accepted_call_record locations now location_id d self :
  mission_in_progress self = false ->
  locations !! location_id = Some d ->
  is_empty d = false ->
  exists m,
    current_mission (snd (execute_mission locations now location_id self))
    = Some m
    /\ m !! "location_id" = Some (Str location_id)
    /\ m !! "start_time" = Some (Float now)
    /\ ((fst (execute_mission locations now location_id self) = Ok (Some m)
         /\ mission_in_progress
              (snd (execute_mission locations now location_id self)) = false
         /\ m !! "status" = Some (Str (MissionStatus_value COMPLETED))
         /\ m !! "error" = None)
        \/ (exists e,
              fst (execute_mission locations now location_id self)
              = Raise (MissionExecutionError e)
              /\ mission_in_progress
                   (snd (execute_mission locations now location_id self))
                 = false
              /\ m !! "status" = Some (Str (MissionStatus_value FAILED))
              /\ m !! "error" = Some (Str (str_exn e)))
        \/ (fst (execute_mission locations now location_id self) = Pending
            /\ mission_in_progress
                 (snd (execute_mission locations now location_id self)) = true
            /\ m !! "status" = Some (Str (MissionStatus_value IN_PROGRESS))
            /\ m !! "error" = None)).
Proof.
  intros Hp Hl He. rewrite (execute_mission_outcome _ _ _ d self Hp Hl He).
  cbv zeta.
  destruct (steady_flight locations d (accepted location_id now self))
    as (_ & Hf & Hc & _).
  destruct (flight locations d (accepted location_id now self))
    as [[[]|e|] s1]; simpl in *; eexists;
    (split; [first [reflexivity | eassumption]|]);
    (split; [reflexivity|]); (split; [reflexivity|]).
  - left. repeat split; reflexivity.
  - right. left. exists e. repeat split; reflexivity.
  - right. right. repeat split; first [reflexivity | assumption].
Qed.



(** X10: missions run one after the other.  After an accepted call that has
    ended, however it ended, the next call for a known location is not
    refused as a conflict; it replaces the record of the controller by its
    own, with its own location and start time, and the error of a failed
    mission does not stay in the record of a mission that completes after
    it. *)
Theorem missions_in_sequence locations now1 now2 id1 id2 d1 d2 self :
  mission_in_progress self = false ->
  locations !! id1 = Some d1 -> is_empty d1 = false ->
  locations !! id2 = Some d2 -> is_empty d2 = false ->
  fst (execute_mission locations now1 id1 self) <> Pending ->
  let s1 := snd (execute_mission locations now1 id1 self) in
  fst (execute_mission locations now2 id2 s1) <> Raise Conflict
  /\ exists m,
       current_mission (snd (execute_mission locations now2 id2 s1)) = Some m
       /\ m !! "location_id" = Some (Str id2)
       /\ m !! "start_time" = Some (Float now2)
       /\ (forall r, fst (execute_mission locations now2 id2 s1) = Ok r ->
           r = Some m /\ m !! "error" = None).
Proof.
  intros Hp Hl1 He1 Hl2 He2 Hend s1.
  assert (Hflag : mission_in_progress s1 = false).
  { destruct (accepted_call_record locations now1 id1 d1 self Hp Hl1 He1)
      as (m & _ & _ & _ & [(_ & H & _)|[(e & _ & H & _)|(Hr & _)]]);
      [exact H | exact H | contradiction]. }
  destruct (accepted_call_record locations now2 id2 d2 s1 Hflag Hl2 He2)
    as (m & Hm & Hloc & Hst
        & [(Hr & _ & Hs & Herr)
          |[(e & Hr & _ & Hs & Herr)|(Hr & _ & Hs & Herr)]]);
    (split; [rewrite Hr; discriminate|]); exists m;
    repeat split; auto; rewrite Hr in *; congruence.
Qed.

Lemma missions_in_sequence_witness :
  fst (execute_mission Scenario.table 6%float "roof"
         (snd (execute_mission Scenario.table 5%float "roof"
                 (Scenario.idle Scenario.link_losing_video))))
  <> Raise Conflict.
Proof.
  eassert (E : execute_mission Scenario.table 5%float "roof"
                 (Scenario.idle Scenario.link_losing_video)
               = (Raise _, _)) by (vm_compute; reflexivity).
  assert (Hl : Scenario.table !! "roof" = Some Scenario.roof)
    by (vm_compute; reflexivity).
  refine (proj1 (missions_in_sequence Scenario.table 5%float 6%float
                   "roof" "roof" Scenario.roof Scenario.roof
                   (Scenario.idle Scenario.link_losing_video)
                   eq_refl Hl eq_refl Hl eq_refl _)).
  rewrite E. discriminate.
Defined.

(** ** The image buffer over a mission *)

Lemma takeoff_quiet self :
  image_buffer (snd (_takeoff_sequence self)) = image_buffer self
  /\ (fst (_takeoff_sequence self) = Ok tt ->
      frames_read (log (snd (_takeoff_sequence self)))
      = S (frames_read (log self))).
Proof.
  unfold _takeoff_sequence, bind, get_battery, get_frame, _send_command.
  destruct (battery (drone self) <? 20); simpl; [split; [auto|discriminate]|].
  destruct (video (drone self) _) as [f|]; simpl; [|split; [auto|discriminate]].
  destruct (get_landing_alignment f) as [b [a|]]; simpl;
    [|split; [auto|discriminate]].
  destruct (acks (drone self) _ "takeoff"); simpl; [|split; [auto|discriminate]].
  change (int_of_float 100) with (@inr exn Z 100). simpl.
  destruct (acks (drone self) _ _); simpl; (split; [auto|]);
    [|discriminate].
  intros _. rewrite !frames_read_app. simpl. lia.
Qed.

Lemma outbound_quiet d self :
  image_buffer (snd (outbound d self)) = image_buffer self
  /\ drone (snd (outbound d self)) = drone self
  /\ (fst (outbound d self) = Ok tt ->
      frames_read (log (snd (outbound d self))) = S (frames_read (log self))).
Proof.
  unfold outbound.
  destruct (takeoff_quiet self) as [Hb Hf].
  destruct (steady_takeoff_sequence self) as (Hd & _).
  destruct (_takeoff_sequence self) as [[[]|e|] s1] eqn:Et;
    [rewrite (bind_Ok _ _ _ _ _ Et) | rewrite (bind_Raise _ _ _ _ _ Et)
    |rewrite (bind_Pending _ _ _ _ Et)];
    simpl in *; try (split; [auto|split; [auto|discriminate]]).
  destruct (path d) as [p|]; simpl.
  - change (bind (ret p) (fun path_commands => _execute_path path_commands) s1)
      with (_execute_path p s1).
    destruct (execute_path_quiet p s1) as [Hf' Hb'].
    rewrite Hb', Hf', (execute_path_drone p s1). rewrite Hf by reflexivity.
    auto.
  - split; [auto|split; [auto|discriminate]].
Qed.

Lemma flight_outbound locations d self :
  flight locations d self
  = bind (outbound d)
      (fun _ =>
         _capture_location (default [] (capture_points d)) ;;;
         _return_home locations) self.
Proof.
  unfold flight, outbound.
  repeat (rewrite bind_assoc_at; apply bind_ext_at; intros).
  reflexivity.
Qed.

Lemma return_home_buffer locations self :
  image_buffer (snd (_return_home locations self)) = image_buffer self.
Proof.
  unfold _return_home.
  destruct (locations !! "home") as [home|]; [|reflexivity].
  change (bind (getitem "home" (Some home)) ?k self) with (k home self).
  cbv beta.
  destruct (return_path home) as [back|]; [|reflexivity].
  change (bind (getitem "return_path" (Some back)) ?k self) with (k back self).
  cbv beta.
  destruct (execute_path_quiet back self) as [_ Hb].
  destruct (_execute_path back self) as [[[]|e|] s1] eqn:Ep;
    [rewrite (bind_Ok _ _ _ _ _ Ep) | rewrite (bind_Raise _ _ _ _ _ Ep)
    |rewrite (bind_Pending _ _ _ _ Ep)];
    simpl in *; try exact Hb.
  rewrite align_and_land_rounds. cbv zeta.
  destruct (fst (align_rounds (drone s1) (frames_read (log s1)) 3))
    as [[|]|e|]; simpl; exact Hb.
Qed.

(** X11: a mission that fails before its capture phase leaves the image
    buffer as it found it: when the takeoff sequence or the outbound path
    fails (or the location has no path), the images of an earlier mission
    are still in the buffer after the call. *)
Theorem early_failure_keeps_buffer locations now location_id d self e :
  mission_in_progress self = false ->
  locations !! location_id = Some d ->
  is_empty d = false ->
  fst (outbound d (accepted location_id now self)) = Raise e ->
  fst (execute_mission locations now location_id self)
  = Raise (MissionExecutionError e)
  /\ image_buffer (snd (execute_mission locations now location_id self))
     = image_buffer self.
Proof.
  intros Hp Hl He Hout. rewrite (execute_mission_outcome _ _ _ d self Hp Hl He).
  cbv zeta. rewrite flight_outbound.
  destruct (outbound_quiet d (accepted location_id now self)) as (Hb & _).
  destruct (outbound d (accepted location_id now self)) as [r s1] eqn:Eo.
  simpl in Hout, Hb. subst r. rewrite (bind_Raise _ _ _ _ _ Eo). simpl.
  auto.
Qed.

Lemma early_failure_keeps_buffer_witness :
  image_buffer
    (snd (execute_mission Scenario.table 5%float "roof"
            {| drone := Scenario.link 15 (fun _ => None); log := [];
               mission_in_progress := false; current_mission := None;
               image_buffer := [Scenario.frame_aligned] |}))
  = [Scenario.frame_aligned].
Proof.
  eassert (Hl : Scenario.table !! "roof" = Some _) by (vm_compute; reflexivity).
  refine (proj2 (early_failure_keeps_buffer Scenario.table 5%float "roof" _
                   {| drone := Scenario.link 15 (fun _ => None); log := [];
                      mission_in_progress := false; current_mission := None;
                      image_buffer := [Scenario.frame_aligned] |}
                   (InsufficientBattery 15) eq_refl Hl eq_refl _)).
  vm_compute. reflexivity.
Defined.

(** X12: after a mission that completes, the image buffer holds the frames
    that the video delivered at the ticks of the capture phase, in order and
    without the ticks that delivered none; these are the ticks after the
    frame of the preflight check, as many as the capture points ask for.  A
    location without capture points leaves the buffer empty, and the mission
    completes all the same. *)
Theorem completed_mission_buffer locations now location_id d self m s' :
  mission_in_progress self = false ->
  locations !! location_id = Some d ->
  is_empty d = false ->
  execute_mission locations now location_id self = (Ok m, s') ->
  image_buffer s'
  = delivered (drone self) (S (frames_read (log self)))
      (frames_asked (default [] (capture_points d)))
  /\ (capture_points d = None -> image_buffer s' = []).
Proof.
  intros Hp Hl He. rewrite (execute_mission_outcome _ _ _ d self Hp Hl He).
  cbv zeta. rewrite flight_outbound.
  destruct (outbound_quiet d (accepted location_id now self)) as (_ & Hd & Hf).
  destruct (outbound d (accepted location_id now self))
    as [[[]|e|] s1] eqn:Eo;
    [rewrite (bind_Ok _ _ _ _ _ Eo) | rewrite (bind_Raise _ _ _ _ _ Eo)
    |rewrite (bind_Pending _ _ _ _ Eo)];
    simpl in Hd, Hf; try discriminate.
  specialize (Hf eq_refl). simpl in Hf.
  pose proof (capture_location_unfold (default [] (capture_points d)) s1) as Eu.
  destruct (capture_each_spec (default [] (capture_points d))
              (set_image_buffer [] s1)) as (_ & Hbuf & Hok & _).
  rewrite <- Eu in Hbuf, Hok. simpl in Hbuf, Hok.
  destruct (_capture_location (default [] (capture_points d)) s1)
    as [[[]|e|] s2] eqn:Ec;
    [rewrite (bind_Ok _ _ _ _ _ Ec) | rewrite (bind_Raise _ _ _ _ _ Ec)
    |rewrite (bind_Pending _ _ _ _ Ec)];
    simpl in Hbuf, Hok; try discriminate.
  destruct (Hok eq_refl) as [Hfr _].
  pose proof (return_home_buffer locations s2) as Hrb.
  destruct (_return_home locations s2) as [[[]|e|] s3]; simpl in Hrb |- *;
    try discriminate.
  intros [= <- <-]. simpl. rewrite Hrb, Hbuf, Hfr, Hd, Hf.
  replace (S (frames_read (log self))
           + frames_asked (default [] (capture_points d))
           - S (frames_read (log self)))%nat
    with (frames_asked (default [] (capture_points d))) by lia.
  split; [reflexivity|]. intros ->. reflexivity.
Qed.

Lemma completed_mission_buffer_witness :
  image_buffer
    (snd (execute_mission Scenario.table 5%float "roof"
            (Scenario.idle
               (Scenario.link 80
                  (fun i => if (i =? 2)%nat then None
                            else Some Scenario.frame_aligned)))))
  = delivered
      (Scenario.link 80
         (fun i => if (i =? 2)%nat then None else Some Scenario.frame_aligned))
      1 3.
Proof.
  eassert (E : execute_mission Scenario.table 5%float "roof"
                 (Scenario.idle
                    (Scenario.link 80
                       (fun i => if (i =? 2)%nat then None
                                 else Some Scenario.frame_aligned)))
               = (Ok _, _)) by (vm_compute; reflexivity).
  eassert (Hl : Scenario.table !! "roof" = Some _) by (vm_compute; reflexivity).
  rewrite E.
  exact (proj1 (completed_mission_buffer Scenario.table 5%float "roof" _
                  (Scenario.idle
                     (Scenario.link 80
                        (fun i => if (i =? 2)%nat then None
                                  else Some Scenario.frame_aligned)))
                  _ _ eq_refl Hl eq_refl E)).
Defined.

(** ** Keys that the table lacks *)

Lemma mission_without_path_at locations now location_id d self :
  mission_in_progress self = false ->
  locations !! location_id = Some d ->
  is_empty d = false ->
  path d = None ->
  fst (_takeoff_sequence (accepted location_id now self)) = Ok tt ->
  fst (execute_mission locations now location_id self)
  = Raise (MissionExecutionError (Exception KeyError "path" None))
  /\ sent (log (snd (execute_mission locations now location_id self)))
     = sent (log self) ++ ["takeoff"; "up 100"].
Proof.
  intros Hp Hl He Hpath Ht.
  rewrite (execute_mission_outcome _ _ _ d self Hp Hl He). cbv zeta.
  unfold flight. rewrite Hpath.
  destruct (_takeoff_sequence (accepted location_id now self))
    as [r s1] eqn:Et. simpl in Ht. subst r.
  rewrite (bind_Ok _ _ _ _ _ Et). simpl.
  split; [reflexivity|].
  exact (takeoff_success_sent _ _ Et).
Qed.

(** X13: a location whose entry has no path is only found out after the
    takeoff: when the takeoff sequence succeeds, the mission fails with the
    key error for ['path'] as its cause, and the takeoff and ascent commands
    are the commands it has sent. *)
Theorem mission_without_path locations now location_id d self :
  mission_in_progress self = false ->
  locations !! location_id = Some d ->
  is_empty d = false ->
  path d = None ->
  fst (_takeoff_sequence (accepted location_id now self)) = Ok tt ->
  fst (execute_mission locations now location_id self)
  = Raise (MissionExecutionError (Exception KeyError "path" None))
  /\ str_exn (MissionExecutionError (Exception KeyError "path" None))
     = "Mission failed: 'path'"
  /\ sent (log (snd (execute_mission locations now location_id self)))
     = sent (log self) ++ ["takeoff"; "up 100"].
Proof.
  intros Hp Hl He Hpath Ht.
  destruct (mission_without_path_at locations now location_id d self
              Hp Hl He Hpath Ht) as [Hr Hs].
  split; [exact Hr|]. split; [reflexivity | exact Hs].
Qed.

Lemma mission_without_path_witness :
  fst (execute_mission
         (<["attic" := {| path := None; capture_points := Some [];
                          return_path := None; other_keys := [] |}]>
            Scenario.table)
         5%float "attic"
         (Scenario.idle (Scenario.link 80 (fun _ => Some Scenario.frame_aligned))))
  = Raise (MissionExecutionError (Exception KeyError "path" None)).
Proof.
  eassert (Hl : (<["attic" := {| path := None; capture_points := Some [];
                                return_path := None; other_keys := [] |}]>
                   Scenario.table)
                !! "attic" = Some _) by (vm_compute; reflexivity).
  refine (proj1 (mission_without_path _ 5%float "attic" _
                   (Scenario.idle
                      (Scenario.link 80 (fun _ => Some Scenario.frame_aligned)))
                   eq_refl Hl eq_refl eq_refl _)).
  vm_compute. reflexivity.
Defined.

Lemma flight_survey locations d self :
  flight locations d self
  = bind (bind (outbound d)
            (fun _ => _capture_location (default [] (capture_points d))))
      (fun _ => _return_home locations) self.
Proof.
  rewrite flight_outbound. now rewrite bind_assoc_at.
Qed.

(** X14: no mission completes without the ["home"] entry and its return
    path.  When the table has no entry ["home"], or this entry has no return
    path, every accepted mission fails; when its outbound leg and its capture
    phase succeed, the cause is the key error for ['home'], or for
    ['return_path'], raised after that flight. *)
Theorem mission_without_home locations now location_id d self :
  mission_in_progress self = false ->
  locations !! location_id = Some d ->
  is_empty d = false ->
  locations !! "home" = None
  \/ (exists home, locations !! "home" = Some home /\ return_path home = None) ->
  (forall m, fst (execute_mission locations now location_id self) <> Ok m)
  /\ (fst (bind (outbound d)
             (fun _ => _capture_location (default [] (capture_points d)))
             (accepted location_id now self)) = Ok tt ->
      (locations !! "home" = None ->
       fst (execute_mission locations now location_id self)
       = Raise (MissionExecutionError (Exception KeyError "home" None)))
      /\ (locations !! "home" <> None ->
          fst (execute_mission locations now location_id self)
          = Raise (MissionExecutionError
                     (Exception KeyError "return_path" None)))).
Proof.
  intros Hp Hl He Hhome.
  rewrite (execute_mission_outcome _ _ _ d self Hp Hl He). cbv zeta. split.
  - intros m.
    destruct (flight locations d (accepted location_id now self))
      as [[[]|e|] s1] eqn:Ef; simpl; try discriminate.
    apply flight_success in Ef.
    destruct Ef as (_ & home & back & _ & Hh & Hb & _).
    destruct Hhome as [Hn|(home' & Hh' & Hn)]; congruence.
  - intros Hsurvey. rewrite flight_survey.
    destruct (bind (outbound d)
                (fun _ => _capture_location (default [] (capture_points d)))
                (accepted location_id now self)) as [r s1] eqn:Es.
    simpl in Hsurvey. subst r. rewrite (bind_Ok _ _ _ _ _ Es).
    unfold _return_home.
    destruct Hhome as [Hn|(home & Hh & Hn)].
    + rewrite Hn. simpl. split; [reflexivity|]. congruence.
    + rewrite Hh. unfold bind, getitem, ret. rewrite Hn. simpl.
      split; [discriminate | reflexivity].
Qed.

Lemma mission_without_home_witness :
  fst (execute_mission
         (<["roof" := {| path := Some [Scenario.move "forward" (PyInt 2)];
                         capture_points := None;
                         return_path := Some [Scenario.move "back" (PyInt 2)];
                         other_keys := [] |}]>
            (∅ : gmap string LocationData))
         5%float "roof"
         (Scenario.idle (Scenario.link 80 (fun _ => Some Scenario.frame_aligned))))
  = Raise (MissionExecutionError (Exception KeyError "home" None)).
Proof.
  eassert (Hl : (<["roof" := {| path := Some [Scenario.move "forward" (PyInt 2)];
                               capture_points := None;
                               return_path :=
                                 Some [Scenario.move "back" (PyInt 2)];
                               other_keys := [] |}]>
                   (∅ : gmap string LocationData))
                !! "roof" = Some _) by (vm_compute; reflexivity).
  refine (proj1 (proj2 (mission_without_home _ 5%float "roof" _
                          (Scenario.idle
                             (Scenario.link 80
                                (fun _ => Some Scenario.frame_aligned)))
                          eq_refl Hl eq_refl (or_introl _)) _) _);
    vm_compute; reflexivity.
Defined.

Lemma is_empty_iff (d : LocationData) :
  is_empty d = true
  <-> path d = None /\ capture_points d = None /\ return_path d = None
      /\ other_keys d = [].
Proof.
  unfold is_empty.
  destruct (path d), (capture_points d), (return_path d), (other_keys d);
    split; try discriminate; auto; intros (H1 & H2 & H3 & H4); discriminate.
Qed.

(** X15: which calls are refused as unknown.  With no mission in progress, a
    call is refused with NotFound exactly when the table has no entry for the
    location or the entry is the empty dictionary, one without any key; the
    controller is then left untouched.  An entry that holds a key, whatever
    key, is accepted: with an entry that holds none of the keys that the
    controller reads, the drone takes off when the preflight check passes,
    and the mission then fails for the missing path. *)
Theorem not_found_iff locations now location_id self :
  mission_in_progress self = false ->
  (locations !! location_id = None
   \/ (exists d, locations !! location_id = Some d
         /\ path d = None /\ capture_points d = None
         /\ return_path d = None /\ other_keys d = [])
   <-> fst (execute_mission locations now location_id self)
       = Raise (NotFound location_id))
  /\ (fst (execute_mission locations now location_id self)
      = Raise (NotFound location_id) ->
      snd (execute_mission locations now location_id self) = self)
  /\ (forall d,
        locations !! location_id = Some d ->
        path d = None -> capture_points d = None -> return_path d = None ->
        other_keys d <> [] ->
        fst (_takeoff_sequence (accepted location_id now self)) = Ok tt ->
        fst (execute_mission locations now location_id self)
        = Raise (MissionExecutionError (Exception KeyError "path" None))
        /\ sent (log (snd (execute_mission locations now location_id self)))
           = sent (log self) ++ ["takeoff"; "up 100"]).
Proof.
  intros Hp. split; [|split].
  - destruct (locations !! location_id) as [d|] eqn:Hl.
    + destruct (is_empty d) eqn:He.
      * unfold execute_mission. rewrite Hp, Hl, He. simpl.
        apply is_empty_iff in He. split; eauto.
      * assert (Hne : ~ (path d = None /\ capture_points d = None
                         /\ return_path d = None /\ other_keys d = [])).
        { intros H. apply is_empty_iff in H. congruence. }
        destruct (accepted_call_record locations now location_id d self
                    Hp Hl He)
          as (m & _ & _ & _ & [(Hr & _)|[(e & Hr & _)|(Hr & _)]]);
          rewrite Hr; (split; [|discriminate]);
          intros [H|(d' & [= <-] & H)]; [discriminate | contradiction
                                        |discriminate | contradiction
                                        |discriminate | contradiction].
    + unfold execute_mission. rewrite Hp, Hl. simpl. split; auto.
  - unfold execute_mission. rewrite Hp.
    destruct (locations !! location_id) as [d|] eqn:Hl; [|reflexivity].
    destruct (is_empty d) eqn:He; [reflexivity|].
    fold (accepted location_id now self).
    rewrite <- (execute_mission_accepted locations now location_id self d
                  Hp Hl He).
    destruct (accepted_call_record locations now location_id d self Hp Hl He)
      as (m & _ & _ & _ & [(Hr & _)|[(e & Hr & _)|(Hr & _)]]);
      rewrite Hr; discriminate.
  - intros d Hl Hpath _ _ Hkeys Ht.
    assert (He : is_empty d = false).
    { destruct (is_empty d) eqn:He; [|reflexivity].
      apply is_empty_iff in He. tauto. }
    now apply (mission_without_path_at locations now location_id d).
Qed.

Lemma not_found_iff_witness :
  snd (execute_mission
         (<["shed" := {| path := None; capture_points := None;
                         return_path := None; other_keys := [] |}]>
            Scenario.table)
         5%float "shed"
         (Scenario.idle (Scenario.link 80 (fun _ => None))))
  = Scenario.idle (Scenario.link 80 (fun _ => None))
  /\ fst (execute_mission (<["shed" := Scenario.storage]> Scenario.table)
            5%float "shed"
            (Scenario.idle
               (Scenario.link 80 (fun _ => Some Scenario.frame_aligned))))
     = Raise (MissionExecutionError (Exception KeyError "path" None))
  /\ sent (log (snd (execute_mission
                       (<["shed" := Scenario.storage]> Scenario.table)
                       5%float "shed"
                       (Scenario.idle
                          (Scenario.link 80
                             (fun _ => Some Scenario.frame_aligned))))))
     = [] ++ ["takeoff"; "up 100"].
Proof.
  split.
  - apply (proj1 (proj2 (not_found_iff
                    (<["shed" := {| path := None; capture_points := None;
                                    return_path := None; other_keys := [] |}]>
                       Scenario.table)
                    5%float "shed"
                    (Scenario.idle (Scenario.link 80 (fun _ => None)))
                    eq_refl))).
    vm_compute. reflexivity.
  - assert (Hl : (<["shed" := Scenario.storage]> Scenario.table) !! "shed"
                 = Some Scenario.storage) by (vm_compute; reflexivity).
    refine (proj2 (proj2 (not_found_iff
                            (<["shed" := Scenario.storage]> Scenario.table)
                            5%float "shed"
                            (Scenario.idle
                               (Scenario.link 80
                                  (fun _ => Some Scenario.frame_aligned)))
                            eq_refl))
              Scenario.storage Hl eq_refl eq_refl eq_refl _ _).
    + discriminate.
    + vm_compute. reflexivity.
Defined.

(** ** [get_status] *)


(** ** The ticks of the capture *)

Lemma sampling_events_app (a b : nat) :
  sampling_events (a + b) = sampling_events a ++ sampling_events b.
Proof. unfold sampling_events. now rewrite repeat_app, concat_app. Qed.

Lemma capture_frames_log (n : nat) self :
  log (snd (capture_frames n self)) = log self ++ sampling_events n.
Proof.
  revert self. induction n as [|n IH]; intros self.
  - simpl. now rewrite app_nil_r.
  - rewrite (sampling_events_app 1 n : sampling_events (S n) = _).
    cbn [capture_frames].
    rewrite (bind_Ok get_frame _ self _ _ eq_refl).
    destruct (video (drone self) (frames_read (log self))) as [f|].
    + rewrite (bind_Ok (modify _) _ _ tt _ eq_refl).
      rewrite (bind_Ok (sleep _) _ _ tt _ (sleep_half _)).
      rewrite IH. simpl. rewrite <- !app_assoc. reflexivity.
    + rewrite (bind_Ok (ret tt) _ _ tt _ eq_refl).
      rewrite (bind_Ok (sleep _) _ _ tt _ (sleep_half _)).
      rewrite IH. simpl. rewrite <- !app_assoc. reflexivity.
Qed.

Lemma capture_each_log (pts : list CapturePoint) self :
  positions pts = [] ->
  log (snd (capture_each pts self))
  = log self ++ sampling_events (frames_asked pts).
Proof.
  revert self. induction pts as [|pt pts IH]; intros self Hpos.
  - simpl. now rewrite app_nil_r.
  - unfold positions in Hpos. simpl in Hpos.
    destruct (position pt) as [p|] eqn:Ep; [discriminate|].
    rewrite capture_each_cons. unfold reposition. rewrite Ep.
    change (bind (ret tt) ?k self) with (k tt self). cbv beta.
    pose proof (capture_frames_spec (Z.to_nat (default 1 (frames pt))) self)
      as (Hr & _).
    pose proof (capture_frames_log (Z.to_nat (default 1 (frames pt))) self)
      as Hlog.
    destruct (capture_frames (Z.to_nat (default 1 (frames pt))) self)
      as [r s1] eqn:Ec. simpl in Hr, Hlog. subst r.
    rewrite (bind_Ok _ _ _ _ _ Ec), (IH s1 Hpos), Hlog.
    simpl frames_asked. now rewrite sampling_events_app, <- app_assoc.
Qed.

(** X17: a capture phase without repositioning logs, for each frame that its
    points ask for, one reading of the video followed by a wait of 0.5 s, and
    nothing else, whether the frames arrive or not; a point that asks for
    zero frames, or for a negative number of them, is passed over. *)
Theorem capture_ticks (pts : list CapturePoint) self :
  positions pts = [] ->
  log (snd (_capture_location pts self))
  = log self ++ sampling_events (frames_asked pts)
  /\ (Forall (fun pt => exists n, frames pt = Some n /\ n <= 0) pts ->
      _capture_location pts self = (Ok tt, set_image_buffer [] self)).
Proof.
  intros Hpos. rewrite capture_location_unfold.
  pose proof (capture_each_log pts (set_image_buffer [] self) Hpos) as Hlog.
  split; [exact Hlog|].
  intros Hall.
  assert (Hz : frames_asked pts = O).
  { clear Hpos Hlog. induction pts as [|pt pts IH]; [reflexivity|].
    inversion Hall as [|? ? (n & Hn & Hle) Hall']; subst.
    simpl. rewrite Hn, (IH Hall'). simpl. lia. }
  destruct (capture_each_spec pts (set_image_buffer [] self))
    as (_ & Hbuf & _ & Hnone & _).
  specialize (Hnone Hpos). rewrite Hz in Hlog. simpl in Hlog, Hbuf.
  rewrite app_nil_r in Hlog. rewrite Hlog, Nat.sub_diag in Hbuf.
  destruct (steady_capture_each pts (set_image_buffer [] self))
    as (Hd & Hm & Hc & _).
  destruct (capture_each pts (set_image_buffer [] self)) as [r s1].
  simpl in *. subst r. f_equal.
  destruct s1, self. simpl in *. unfold set_image_buffer. simpl.
  unfold delivered in Hbuf. simpl in Hbuf. congruence.
Qed.

Lemma capture_ticks_witness :
  log (snd (_capture_location
              [ {| position := None; frames := Some 2 |};
                {| position := None; frames := Some (-1) |};
                {| position := None; frames := None |} ]
              (Scenario.idle (Scenario.link 80 (fun _ => None)))))
  = [] ++ sampling_events 3.
Proof.
  exact (proj1 (capture_ticks
                  [ {| position := None; frames := Some 2 |};
                    {| position := None; frames := Some (-1) |};
                    {| position := None; frames := None |} ]
                  (Scenario.idle (Scenario.link 80 (fun _ => None)))
                  eq_refl)).
Defined.

(** ** Measurements that are not numbers *)

Lemma ltb_NaN (x y : float) :
  is_NaN x \/ is_NaN y -> (x <? y)%float = false.
Proof.
  unfold is_NaN. rewrite ltb_spec. intros [H|H]; rewrite H.
  - reflexivity.
  - destruct (Prim2SF x) as [s|s| |s m e]; try reflexivity;
      destruct s; reflexivity.
Qed.

(** X18: the evaluation fails closed on a measurement that is not a number:
    when the distance of the home marker from the centre or its area is NaN,
    the frame is not aligned; and when the distance is NaN the round makes
    no adjustment either: the translation is not read and nothing is sent. *)
Theorem alignment_of_NaN (frame : ndarray) (m : Marker) :
  home_marker_detected frame ->
  home_marker frame = Some m ->
  (is_NaN (norm (centroid_offset m frame)) \/ is_NaN (contourArea m) ->
   fst (get_landing_alignment frame) = false)
  /\ (is_NaN (norm (centroid_offset m frame)) ->
      forall self,
        adjust (fst (get_landing_alignment frame))
          (snd (get_landing_alignment frame)) self = (Ok tt, self)).
Proof.
  intros Hin Hm. rewrite (get_landing_alignment_detected frame m Hin Hm).
  cbv zeta. cbn [fst snd]. split.
  - intros [H|H].
    + now rewrite (ltb_NaN _ 50%float (or_introl H)).
    + rewrite (ltb_NaN (tenth_of_frame_area frame) _ (or_intror H)).
      apply andb_false_r.
  - intros H self. apply adjust_quiet. right. right.
    eexists. split; [reflexivity|]. cbn [distance_from_center].
    apply (ltb_NaN 50%float _ (or_intror H)).
Qed.

Lemma alignment_of_NaN_witness :
  fst (get_landing_alignment
         {| shape := (720, 960);
            detected := [(1, {| center := (480, 360)%float; contourArea := nan;
                                rvec := (0, 0, 0)%float;
                                tvec := (0, 0, 0)%float |})] |})
  = false.
Proof.
  refine (proj1 (alignment_of_NaN
                   {| shape := (720, 960);
                      detected := [(1, {| center := (480, 360)%float;
                                          contourArea := nan;
                                          rvec := (0, 0, 0)%float;
                                          tvec := (0, 0, 0)%float |})] |}
                   _ _ eq_refl) (or_intror eq_refl)).
  left. reflexivity.
Defined.

(** ** The values of [MissionStatus] *)

(** X19: the four values of [MissionStatus] are distinct: a status is
    recovered from its value, and a string that is the value of a status is
    the value of that status only. *)
Theorem MissionStatus_round_trip :
  (forall s, MissionStatus_of_value (MissionStatus_value s) = Some s)
  /\ (forall v s, MissionStatus_of_value v = Some s ->
      MissionStatus_value s = v)
  /\ (forall s s', MissionStatus_value s = MissionStatus_value s' -> s = s').
Proof.
  assert (H1 : forall s, MissionStatus_of_value (MissionStatus_value s) = Some s)
    by (intros []; reflexivity).
  split; [exact H1|]. split.
  - intros v s. unfold MissionStatus_of_value.
    destruct (String.eqb v "pending") eqn:E1;
      [apply String.eqb_eq in E1; intros [= <-]; now subst|].
    destruct (String.eqb v "in_progress") eqn:E2;
      [apply String.eqb_eq in E2; intros [= <-]; now subst|].
    destruct (String.eqb v "completed") eqn:E3;
      [apply String.eqb_eq in E3; intros [= <-]; now subst|].
    destruct (String.eqb v "failed") eqn:E4;
      [apply String.eqb_eq in E4; intros [= <-]; now subst|].
    discriminate.
  - intros s s' H. apply (f_equal MissionStatus_of_value) in H.
    rewrite !H1 in H. now injection H.
Qed.

(** ** What the flight leaves alone *)

(** X20: the steps of a mission never write the in-progress flag, the
    mission record or the link: whatever the outcome of the flight, these are
    as they were when it started, and the log has only grown.  Only
    [execute_mission] itself sets and clears the flag and writes the
    record. *)
Theorem flight_keeps_mission_state locations d self :
  drone (snd (flight locations d self)) = drone self
  /\ mission_in_progress (snd (flight locations d self))
     = mission_in_progress self
  /\ current_mission (snd (flight locations d self)) = current_mission self
  /\ exists evs, log (snd (flight locations d self)) = log self ++ evs.
Proof. apply steady_flight. Qed.

(** ** Missions that never end *)

Lemma execute_path_pending (p : list MovementCommand) self :
  fst (_execute_path p self) = Pending ->
  exists cmd, In cmd p /\ asyncio_sleep (delay_of cmd) = Pending.
Proof.
  revert self. induction p as [|cmd p IH]; intros self; [simpl; discriminate|].
  rewrite execute_path_cons.
  destruct (command_of cmd) as [e0|c]; simpl; [discriminate|].
  destruct (acks (drone self) (sent (log self)) c); simpl; [|discriminate].
  destruct (asyncio_sleep (delay_of cmd)) as [[]|e0|] eqn:Es; simpl.
  - intros H. apply IH in H. destruct H as (cmd' & Hin & H). eauto.
  - discriminate.
  - intros _. exists cmd. auto.
Qed.

Lemma capture_each_pending (pts : list CapturePoint) self :
  fst (capture_each pts self) = Pending ->
  exists cmd, In cmd (positions pts) /\ asyncio_sleep (delay_of cmd) = Pending.
Proof.
  revert self. induction pts as [|pt pts IH]; intros self;
    [simpl; discriminate|].
  rewrite capture_each_cons.
  destruct (reposition pt self) as [[[]|e|] s1] eqn:Er;
    [rewrite (bind_Ok _ _ _ _ _ Er) | rewrite (bind_Raise _ _ _ _ _ Er)
    |rewrite (bind_Pending _ _ _ _ Er)]; simpl; try discriminate.
  - pose proof (capture_frames_spec (Z.to_nat (default 1 (frames pt))) s1)
      as (Hr & _).
    destruct (capture_frames (Z.to_nat (default 1 (frames pt))) s1)
      as [r s2] eqn:Ec. simpl in Hr. subst r.
    rewrite (bind_Ok _ _ _ _ _ Ec). intros H. apply IH in H.
    destruct H as (cmd & Hin & H). exists cmd. split; [|exact H].
    unfold positions in *. simpl. apply in_or_app. now right.
  - intros _. unfold reposition in Er.
    destruct (position pt) as [p|] eqn:Ep; [|discriminate].
    assert (Hr : fst (_execute_path [p] self) = Pending) by now rewrite Er.
    apply execute_path_pending in Hr. destruct Hr as (cmd & [<-|[]] & Hc).
    exists p. split; [|exact Hc]. unfold positions. simpl. rewrite ?Ep.
    now left.
Qed.

Lemma takeoff_ends self : fst (_takeoff_sequence self) <> Pending.
Proof.
  destruct (takeoff_sent_cases self) as [[H _]|[[e H] _]]; rewrite H;
    discriminate.
Qed.

Lemma align_and_land_ends self : fst (align_and_land self) <> Pending.
Proof.
  destruct (align_and_land_sent self) as [[_ [H|H]]|[_ [e H]]]; rewrite H;
    discriminate.
Qed.

(** A flight that stays suspended is suspended in the sleep of one of its
    movement commands. *)
Lemma flight_pending locations d self :
  fst (flight locations d self) = Pending ->
  exists cmd,
    asyncio_sleep (delay_of cmd) = Pending
    /\ (In cmd (default [] (path d))
        \/ In cmd (positions (default [] (capture_points d)))
        \/ exists home back,
             locations !! "home" = Some home /\ return_path home = Some back
             /\ In cmd back).
Proof.
  unfold flight.
  pose proof (takeoff_ends self) as Ht.
  destruct (_takeoff_sequence self) as [[[]|e|] s1] eqn:Et;
    [rewrite (bind_Ok _ _ _ _ _ Et) | rewrite (bind_Raise _ _ _ _ _ Et)
    |now destruct Ht]; simpl; try discriminate.
  destruct (path d) as [p|]; simpl; [|discriminate].
  change (bind (ret p) ?k s1) with (k p s1). cbv beta.
  destruct (_execute_path p s1) as [[[]|e|] s2] eqn:Ep;
    [rewrite (bind_Ok _ _ _ _ _ Ep) | rewrite (bind_Raise _ _ _ _ _ Ep)
    |rewrite (bind_Pending _ _ _ _ Ep)]; simpl; try discriminate.
  2:{ intros _.
      assert (H : fst (_execute_path p s1) = Pending) by now rewrite Ep.
      apply execute_path_pending in H. destruct H as (cmd & Hin & H). eauto. }
  destruct (_capture_location (default [] (capture_points d)) s2)
    as [[[]|e|] s3] eqn:Ec;
    [rewrite (bind_Ok _ _ _ _ _ Ec) | rewrite (bind_Raise _ _ _ _ _ Ec)
    |rewrite (bind_Pending _ _ _ _ Ec)]; simpl; try discriminate.
  2:{ intros _. rewrite capture_location_unfold in Ec.
      assert (H : fst (capture_each (default [] (capture_points d))
                         (set_image_buffer [] s2)) = Pending)
        by now rewrite Ec.
      apply capture_each_pending in H. destruct H as (cmd & Hin & H). eauto. }
  unfold _return_home.
  destruct (locations !! "home") as [home|] eqn:Hh; simpl; [|discriminate].
  change (bind (ret home) ?k s3) with (k home s3). cbv beta.
  destruct (return_path home) as [back|] eqn:Hb; simpl; [|discriminate].
  change (bind (ret back) ?k s3) with (k back s3). cbv beta.
  destruct (_execute_path back s3) as [[[]|e|] s4] eqn:Eb;
    [rewrite (bind_Ok _ _ _ _ _ Eb) | rewrite (bind_Raise _ _ _ _ _ Eb)
    |rewrite (bind_Pending _ _ _ _ Eb)]; simpl; try discriminate.
  - intros H. now destruct (align_and_land_ends s4).
  - intros _.
    assert (H : fst (_execute_path back s3) = Pending) by now rewrite Eb.
    apply execute_path_pending in H. destruct H as (cmd & Hin & H).
    exists cmd. split; [exact H|]. right. right. eauto.
Qed.

(** X21: a mission can stay suspended for ever, and then blocks the
    controller.  An accepted call that never ends is suspended in the sleep
    of a movement command of the table (of the path of its location, of a
    capture point, or of the return path of ["home"]) whose delay gives a
    sleep without end.  Its [finally] block has not run: the in-progress
    flag is still set and the record still says in progress, a status query
    reports a mission in progress, and every later call, for whatever
    location, is refused as a conflict and changes nothing. *)
Theorem suspended_mission_blocks locations now location_id d self :
  mission_in_progress self = false ->
  locations !! location_id = Some d ->
  is_empty d = false ->
  fst (execute_mission locations now location_id self) = Pending ->
  let s1 := snd (execute_mission locations now location_id self) in
  (exists cmd,
     asyncio_sleep (delay_of cmd) = Pending
     /\ (In cmd (default [] (path d))
         \/ In cmd (positions (default [] (capture_points d)))
         \/ exists home back,
              locations !! "home" = Some home /\ return_path home = Some back
              /\ In cmd back))
  /\ mission_in_progress s1 = true
  /\ current_mission s1 = Some (new_mission location_id now)
  /\ new_mission location_id now !! "status"
     = Some (Str (MissionStatus_value IN_PROGRESS))
  /\ (exists st,
        fst (get_status s1) = Ok st /\ status_mission_in_progress st = true)
  /\ (forall locations' now' location_id',
        execute_mission locations' now' location_id' s1 = (Raise Conflict, s1)).
Proof.
  intros Hp Hl He Hpend s1.
  destruct (execute_mission_pending locations now location_id d self
              Hp Hl He Hpend) as [Hflag Hrec]. fold s1 in Hflag, Hrec.
  split; [|split; [exact Hflag|split; [exact Hrec|split; [reflexivity|split]]]].
  - rewrite (execute_mission_outcome _ _ _ d self Hp Hl He) in Hpend.
    cbv zeta in Hpend.
    destruct (flight_pending locations d (accepted location_id now self))
      as (cmd & Hc & Hin); [|eauto].
    destruct (fst (flight locations d (accepted location_id now self)))
      as [[]|e|]; [discriminate | discriminate | reflexivity].
  - eexists. unfold get_status, bind, get_battery. simpl.
    split; [reflexivity | exact Hflag].
  - intros locations' now' location_id'. unfold execute_mission.
    now rewrite Hflag.
Qed.

Lemma suspended_mission_blocks_witness :
  mission_in_progress
    (snd (execute_mission (<["yard" := Scenario.yard]> Scenario.table)
            5%float "yard"
            (Scenario.idle
               (Scenario.link 80 (fun _ => Some Scenario.frame_aligned)))))
  = true.
Proof.
  eassert (E : execute_mission (<["yard" := Scenario.yard]> Scenario.table)
                 5%float "yard"
                 (Scenario.idle
                    (Scenario.link 80 (fun _ => Some Scenario.frame_aligned)))
               = (Pending, _)) by (vm_compute; reflexivity).
  assert (Hl : (<["yard" := Scenario.yard]> Scenario.table) !! "yard"
               = Some Scenario.yard) by apply lookup_insert_eq.
  refine (proj1 (proj2 (suspended_mission_blocks
                          (<["yard" := Scenario.yard]> Scenario.table)
                          5%float "yard" Scenario.yard
                          (Scenario.idle
                             (Scenario.link 80
                                (fun _ => Some Scenario.frame_aligned)))
                          eq_refl Hl eq_refl _))).
  rewrite E. reflexivity.
Defined.
